(** * tg-kinoclub-helper: a shallow embedding of the shortlist store
      (src/storage.rs), the TMDb client (src/tmdb.rs) and the callback and
      vote flows (src/tg.rs), with the properties of its specification. *)

From Stdlib Require Import ZArith NArith Ascii String.
From stdpp Require Import base gmap list strings.

(* ================================================================== *)
(** ** src/storage.rs *)
(* ================================================================== *)

Module Storage.

(** [StoredMovie]: [id : u64] as [N], strings as byte strings. *)
Record StoredMovie := mkStoredMovie {
  id : N;
  title : string;
  original_title : string;
  poster_path : option string;
  release_date : option string
}.

(** [FileState]: [chats : HashMap<i64, Vec<StoredMovie>>]. *)
Record FileState := mkFileState {
  version : N;
  chats : gmap Z (list StoredMovie)
}.

(** The [Storage] object: the in-memory authoritative copy behind the
    [RwLock], and the snapshots written to disk by [flush], oldest first
    (each one a write to [<path>.json.tmp] followed by a rename onto
    [path]; every write is taken to succeed). *)
Record Storage := mkStorage {
  inner : FileState;
  flushed : list FileState
}.

(** A state monad over [Storage]: each async method runs to completion
    under the store-wide write path. *)
Definition St (A : Type) := Storage -> A * Storage.
Definition st_ret {A} (a : A) : St A := fun s => (a, s).
Definition st_bind {A B} (m : St A) (k : A -> St B) : St B :=
  fun s => let '(a, s') := m s in k a s'.
Notation "x <- m ;; k" := (st_bind m (fun x => k))
  (at level 96, m at next level, right associativity).
Notation "m ;;; k" := (st_bind m (fun _ => k))
  (at level 96, right associativity).

Definition modify_chats (f : gmap Z (list StoredMovie) -> gmap Z (list StoredMovie))
  : St unit :=
  fun s => (tt, mkStorage (mkFileState (version (inner s)) (f (chats (inner s))))
                          (flushed s)).

Definition read_chats : St (gmap Z (list StoredMovie)) :=
  fun s => (chats (inner s), s).

(** [flush]: serialise the whole document and write it atomically. *)
Definition flush : St unit :=
  fun s => (tt, mkStorage (inner s) (flushed s ++ [inner s])).

(** [Storage::new] with no file, or with a file that does not parse. *)
Definition fresh : Storage := mkStorage (mkFileState 1 ∅) [].

(** [get]: [chats.get(&chat_id).cloned().unwrap_or_default()]. *)
Definition get (chat_id : Z) : St (list StoredMovie) :=
  m <- read_chats ;; st_ret (default [] (m !! chat_id)).

(** [Vec::truncate(10)] when [len > 10]. *)
Definition truncate10 (movies : list StoredMovie) : list StoredMovie :=
  if Nat.ltb 10 (length movies) then take 10 movies else movies.

(** [put]: replace the chat's list (at most 10 kept), then flush. *)
Definition put (chat_id : Z) (movies : list StoredMovie) : St unit :=
  let movies := truncate10 movies in
  modify_chats (fun m => <[chat_id := movies]> m) ;;;
  flush.

(** [remove_chat]. *)
Definition remove_chat (chat_id : Z) : St unit :=
  modify_chats (fun m => delete chat_id m) ;;;
  flush.

(** The branch taken under the write lock in [add_movie], on the entry
    obtained by [entry(chat_id).or_default()]: [(added, new entry)]. *)
Definition add_step (entry : list StoredMovie) (m : StoredMovie)
  : bool * list StoredMovie :=
  if existsb (fun x => N.eqb (id x) (id m)) entry then (false, entry)
  else if Nat.leb 10 (length entry) then (false, entry)
  else (true, entry ++ [m]).

(** [add_movie]: the entry is created (empty) by [or_default] in every
    case; the store is flushed only when the movie was added. *)
Definition add_movie (chat_id : Z) (m : StoredMovie) : St bool :=
  cs <- read_chats ;;
  let entry := default [] (cs !! chat_id) in
  let '(added, entry') := add_step entry m in
  modify_chats (fun cs => <[chat_id := entry']> cs) ;;;
  (if added then flush else st_ret tt) ;;;
  st_ret added.

(** [list.retain(|m| m.id != movie_id)]. *)
Definition retain_not (movie_id : N) (l : list StoredMovie) : list StoredMovie :=
  List.filter (fun x => negb (N.eqb (id x) movie_id)) l.

(** [delete_movie]. *)
Definition delete_movie (chat_id : Z) (movie_id : N) : St bool :=
  cs <- read_chats ;;
  match cs !! chat_id with
  | Some list =>
      let before := length list in
      let list' := retain_not movie_id list in
      let removed := Nat.ltb (length list') before in
      modify_chats (fun cs => <[chat_id := list']> cs) ;;;
      (if removed then flush else st_ret tt) ;;;
      st_ret removed
  | None => st_ret false
  end.

(** The store operations of the specification: [insert] is [add_movie],
    [deleteEntry] is [delete_movie], [replace] is [put], [remove] is
    [remove_chat]. *)
Inductive Op :=
| Insert (chat_id : Z) (m : StoredMovie)
| DeleteEntry (chat_id : Z) (movie_id : N)
| Replace (chat_id : Z) (movies : list StoredMovie)
| Remove (chat_id : Z).

Definition run_op (o : Op) : St unit :=
  match o with
  | Insert c m => add_movie c m ;;; st_ret tt
  | DeleteEntry c i => delete_movie c i ;;; st_ret tt
  | Replace c ms => put c ms
  | Remove c => remove_chat c
  end.

Fixpoint run_ops (os : list Op) : St unit :=
  match os with
  | [] => st_ret tt
  | o :: os => run_op o ;;; run_ops os
  end.

Definition ids (l : list StoredMovie) : list N := map id l.

(** The shape every chat's list is meant to keep. *)
Definition well_formed_list (l : list StoredMovie) : Prop :=
  length l <= 10 /\ NoDup (ids l).

Definition all_lists (P : list StoredMovie -> Prop) (s : Storage) : Prop :=
  forall c l, chats (inner s) !! c = Some l -> P l.

End Storage.

(* ================================================================== *)
(** ** src/tmdb.rs *)
(* ================================================================== *)

Module Tmdb.

(** [Result<T, E>]. *)
Inductive Result (A E : Type) := Ok (a : A) | Err (e : E).
Arguments Ok {A E} a.
Arguments Err {A E} e.

(** [TmdbErr]; status codes are [u16], kept as [N]. *)
Inductive TmdbErr :=
| Net
| RateLimited
| Auth
| Forbidden
| NotFound
| Server (code : N)
| Unexpected (code : N).

(** What one attempt of [req.send().await] yields: a transport error, or a
    response with its status and the result of decoding its body as [T]
    ([resp.json::<T>()], [None] when decoding fails). *)
Inductive Attempt (A : Type) :=
| SendFailed
| Response (status : N) (body : option A).
Arguments SendFailed {A}.
Arguments Response {A} status body.

(** The decision taken on one attempt by the [match] of [get_json]:
    return at once, or take the next delay and [continue] (the error is
    the one returned when [delays] is exhausted). *)
Inductive Step (A : Type) :=
| Done (r : Result A TmdbErr)
| Retry (e : TmdbErr).
Arguments Done {A} r.
Arguments Retry {A} e.

(** [s.is_server_error()]: 500..=599. *)
Definition is_server_error (s : N) : bool := (500 <=? s)%N && (s <=? 599)%N.

Definition classify {A} (a : Attempt A) : Step A :=
  match a with
  | SendFailed => Retry Net
  | Response s body =>
      if (s =? 200)%N then
        Done (match body with Some v => Ok v | None => Err Net end)
      else if (s =? 429)%N then Retry RateLimited
      else if (s =? 401)%N then Done (Err Auth)
      else if (s =? 403)%N then Done (Err Forbidden)
      else if (s =? 404)%N then Done (Err NotFound)
      else if is_server_error s then Retry (Server s)
      else Done (Err (Unexpected s))
  end.

(** What a call to [get_json] did: its result, the delays it slept, in
    order, and the number of requests it sent. *)
Record Trace (A : Type) := mkTrace {
  outcome : Result A TmdbErr;
  slept : list N;
  attempts : nat
}.
Arguments mkTrace {A} outcome slept attempts.
Arguments outcome {A} t.
Arguments slept {A} t.
Arguments attempts {A} t.

(** The [loop] of [get_json]: [resp k] is the outcome of the request sent
    at attempt [k] (counting from 0); [delays] is what remains of the
    iterator [[300, 800, 1500].into_iter()]. *)
Fixpoint get_json_loop {A} (resp : nat -> Attempt A) (delays : list N) (k : nat)
  : Trace A :=
  match classify (resp k) with
  | Done r => mkTrace r [] (S k)
  | Retry e =>
      match delays with
      | ms :: delays' =>
          let t := get_json_loop resp delays' (S k) in
          mkTrace (outcome t) (ms :: slept t) (attempts t)
      | [] => mkTrace (Err e) [] (S k)
      end
  end.

Definition backoff_delays : list N := [300; 800; 1500]%N.

Definition get_json {A} (resp : nat -> Attempt A) : Trace A :=
  get_json_loop resp backoff_delays 0.

(** [MediaKind]. *)
Inductive MediaKind := Movie | Tv | Person.

(** [SearchMultiDto], tagged by [media_type]. *)
Inductive SearchMultiDto :=
| DtoMovie (id : N) (title original_title overview : string)
    (poster_path release_date : option string)
| DtoTv (id : N) (name original_name overview : string)
    (poster_path first_air_date : option string)
| DtoPerson (id : N) (name : string) (profile_path : option string).

Record SearchResp (T : Type) := mkSearchResp {
  page : N;
  results : list T;
  total_pages : N;
  total_results : N
}.
Arguments mkSearchResp {T} page results total_pages total_results.
Arguments results {T} s.

(** [MultiNorm]. *)
Record MultiNorm := mkMultiNorm {
  mn_id : N;
  media_type : MediaKind;
  mn_title : string;
  mn_original_title : string;
  mn_overview : string;
  mn_release_date : option string;
  image_path : option string
}.

(** [impl From<SearchMultiDto> for MultiNorm]. *)
Definition from_dto (x : SearchMultiDto) : MultiNorm :=
  match x with
  | DtoMovie id title original_title overview poster_path release_date =>
      mkMultiNorm id Movie title original_title overview release_date poster_path
  | DtoTv id name original_name overview poster_path first_air_date =>
      mkMultiNorm id Tv name original_name overview first_air_date poster_path
  | DtoPerson id name profile_path =>
      mkMultiNorm id Person name name "" None profile_path
  end.

(** [matches!(item, SearchMultiDto::Movie { .. } | SearchMultiDto::Tv { .. })]. *)
Definition is_movie_or_tv (x : SearchMultiDto) : bool :=
  match x with DtoMovie _ _ _ _ _ _ | DtoTv _ _ _ _ _ _ => true | DtoPerson _ _ _ => false end.

(** [search_movies_ru]: [resp] answers the requests sent to the
    [search/multi] URL built from the query. *)
Definition search_movies_ru (resp : nat -> Attempt (SearchResp SearchMultiDto))
  (limit : nat) : Result (list MultiNorm) TmdbErr :=
  match outcome (get_json resp) with
  | Err e => Err e
  | Ok data =>
      Ok (firstn limit (map from_dto (List.filter is_movie_or_tv (results data))))
  end.

(** [Video]. *)
Record Video := mkVideo {
  key : string;
  site : string;
  type_ : string;
  official : option bool
}.

(** [u8::to_ascii_lowercase] and [str::eq_ignore_ascii_case]. *)
Definition ascii_lower (c : ascii) : ascii :=
  let n := nat_of_ascii c in
  if (65 <=? n) && (n <=? 90) then ascii_of_nat (n + 32) else c.

Fixpoint eq_ignore_ascii_case (s t : string) : bool :=
  match s, t with
  | EmptyString, EmptyString => true
  | String a s', String b t' =>
      Ascii.eqb (ascii_lower a) (ascii_lower b) && eq_ignore_ascii_case s' t'
  | _, _ => false
  end.

Definition is_youtube (v : Video) : bool := eq_ignore_ascii_case (site v) "YouTube".

(** The key of [candidates.sort_by_key]: [(official, typ)]. *)
Definition official_rank (v : Video) : nat :=
  if default false (official v) then 0 else 1.

Definition type_rank (v : Video) : nat :=
  if String.eqb (type_ v) "Trailer" then 0
  else if String.eqb (type_ v) "Teaser" then 1
  else 2.

Definition sort_key (v : Video) : nat * nat := (official_rank v, type_rank v).

(** Lexicographic [<=] on the tuple key. *)
Definition key_leb (a b : nat * nat) : bool :=
  Nat.ltb (fst a) (fst b) || (Nat.eqb (fst a) (fst b) && Nat.leb (snd a) (snd b)).

(** [slice::sort_by_key] is a stable sort; as a stable insertion sort. *)
Fixpoint insert_by_key (v : Video) (l : list Video) : list Video :=
  match l with
  | [] => [v]
  | w :: l' => if key_leb (sort_key v) (sort_key w) then v :: w :: l'
               else w :: insert_by_key v l'
  end.

Fixpoint sort_by_key (l : list Video) : list Video :=
  match l with
  | [] => []
  | v :: l' => insert_by_key v (sort_by_key l')
  end.

Definition watch_url (k : string) : string := "https://www.youtube.com/watch?v=" ++ k.

(** Filtering, sorting and taking the first candidate. *)
Definition pick_trailer (all : list Video) : option string :=
  match sort_by_key (List.filter is_youtube all) with
  | v :: _ => Some (watch_url (key v))
  | [] => None
  end.

(** The [section] match of [best_trailer_url]; a person has no videos. *)
Definition section_of (k : MediaKind) : option string :=
  match k with
  | Movie => Some "movie"
  | Tv => Some "tv"
  | Person => None
  end.

(** [best_trailer_url]: [fetch section id lang] is [get_json] on the
    [videos] URL of that section, id and language. *)
Definition best_trailer_url
  (fetch : string -> N -> string -> Result (list Video) TmdbErr)
  (video : MultiNorm) : Result (option string) TmdbErr :=
  match section_of (media_type video) with
  | None => Ok None
  | Some section =>
      let '(all, any_ok, last_err) :=
        fold_left (fun '(all, any_ok, last_err) lang =>
          match fetch section (mn_id video) lang with
          | Ok vs => (all ++ vs, true, last_err)
          | Err e => (all, any_ok, Some e)
          end) ["ru-RU"; "en-US"] ([], false, None) in
      if negb any_ok then Err (default Net last_err)
      else Ok (pick_trailer all)
  end.

End Tmdb.

(* ================================================================== *)
(** ** src/tg.rs *)
(* ================================================================== *)

Module Tg.
Import Storage Tmdb.

(** The search result type [tg.rs] imports as [crate::tmdb::Movie], with
    the fields [tg.rs] reads from it. *)
Record Movie := mkMovie {
  m_id : N;
  m_title : string;
  m_original_title : string;
  m_poster_path : option string;
  m_release_date : option string;
  m_overview : string
}.

(** The process-wide state [on_callback] touches: the shortlist store and
    [LAST_SEARCH] (chat -> results of the last search). *)
Record World := mkWorld {
  store : Storage;
  last_search : gmap Z (list Movie)
}.

(** What the bot sends. *)
Inductive Out :=
| AnswerCb (text : string)
| SendText (text : string)
| ListView (list : list StoredMovie)
| ShowDetail (m : Movie)
| SendPhoto (url : string)
| Failed (e : TmdbErr).

(** [data.splitn(2, ':')] followed by two [next().unwrap_or("")]. *)
Fixpoint splitn2_colon (s : string) : string * string :=
  match s with
  | EmptyString => ("", "")
  | String c rest =>
      if Ascii.eqb c ":" then ("", rest)
      else let '(a, b) := splitn2_colon rest in (String c a, b)
  end.

Definition digit_value (c : ascii) : option N :=
  let n := nat_of_ascii c in
  if (48 <=? n) && (n <=? 57) then Some (N.of_nat (n - 48)) else None.

Fixpoint parse_digits (s : string) (acc : N) : option N :=
  match s with
  | EmptyString => Some acc
  | String c rest =>
      match digit_value c with
      | Some d => parse_digits rest (acc * 10 + d)%N
      | None => None
      end
  end.

(** [str::parse::<u64>]: an optional leading [+] (not alone), then one or
    more decimal digits, with a value below 2^64. *)
Definition parse_u64 (s : string) : option N :=
  let digits := match s with String "+" rest => rest | _ => s end in
  match digits with
  | EmptyString => None
  | _ =>
      match parse_digits digits 0 with
      | Some n => if (n <? 2 ^ 64)%N then Some n else None
      | None => None
      end
  end.

(** [send_list_view] on the list read from the store. *)
Definition send_list_view (list : list StoredMovie) : Out :=
  match list with
  | [] => SendText "Список пуст. Пришли название — добавлю варианты."
  | _ => ListView list
  end.

Definition stored_of (m : Movie) : StoredMovie :=
  mkStoredMovie (m_id m) (m_title m) (m_original_title m) (m_poster_path m)
    (m_release_date m).

(** [map.get(&chat_id).and_then(|v| v.iter().find(|m| m.id == id)).cloned()]. *)
Definition find_in_last_search (w : World) (chat_id : Z) (id : N) : option Movie :=
  match last_search w !! chat_id with
  | Some v => List.find (fun m => N.eqb (m_id m) id) v
  | None => None
  end.

(** The ["add"] branch of [on_callback]. *)
Definition on_add (chat_id : Z) (id : N) (w : World) : World * list Out :=
  match find_in_last_search w chat_id id with
  | Some m =>
      let '(added, st) := add_movie chat_id (stored_of m) (store w) in
      let w' := mkWorld st (last_search w) in
      if added then
        (w', [AnswerCb "Добавлено"; send_list_view (fst (get chat_id st))])
      else
        let current := fst (get chat_id st) in
        if Nat.leb 10 (length current) then (w', [AnswerCb "В списке уже 10 фильмов"])
        else (w', [AnswerCb "Уже в списке"])
  | None => (w, [AnswerCb "Не нашёл фильм в последнем поиске"])
  end.

(** The ["del"] branch. *)
Definition on_del (chat_id : Z) (id : N) (w : World) : World * list Out :=
  let '(removed, st) := delete_movie chat_id id (store w) in
  let w' := mkWorld st (last_search w) in
  if removed then (w', [AnswerCb "Удалено"; send_list_view (fst (get chat_id st))])
  else (w', [AnswerCb "Не найдено в списке"]).

(** The ["show"] branch: [details id] is [tmdb.movie_details_ru(id)] and
    [image_ok url] whether [fetch_image(url)] succeeds. *)
Definition on_show (details : N -> Result (option Movie) TmdbErr)
  (image_ok : string -> bool) (id : N) (w : World) : World * list Out :=
  match details id with
  | Err e => (w, [Failed e])
  | Ok (Some m) =>
      let photo :=
        match m_poster_path m with
        | Some p =>
            let url := String.append "https://image.tmdb.org/t/p/w500" p in
            if image_ok url then [SendPhoto url] else []
        | None => []
        end in
      (w, [ShowDetail m] ++ photo ++ [AnswerCb "Показал"])
  | Ok None => (w, [AnswerCb "Не удалось получить данные"])
  end.

(** [on_callback]: [data] is [q.data], [msg_chat] the chat of [q.message]. *)
Definition on_callback (details : N -> Result (option Movie) TmdbErr)
  (image_ok : string -> bool) (data : option string) (msg_chat : option Z)
  (w : World) : World * list Out :=
  match data with
  | None => (w, [])
  | Some data =>
      let chat_id := default 0%Z msg_chat in
      let '(cmd, id_str) := splitn2_colon data in
      match parse_u64 id_str with
      | None => (w, [])
      | Some id =>
          if String.eqb cmd "add" then on_add chat_id id w
          else if String.eqb cmd "del" then on_del chat_id id w
          else if String.eqb cmd "show" then on_show details image_ok id w
          else (w, [AnswerCb "Неизвестная команда"])
      end
  end.

(** [d.get(..4)]: [None] when [d] is shorter than 4 bytes or byte 4 is
    not a char boundary (a UTF-8 continuation byte). *)
Definition str_get_prefix4 (d : string) : option string :=
  if Nat.ltb (String.length d) 4 then None
  else match String.get 4 d with
       | None => Some (substring 0 4 d)
       | Some b =>
           let n := nat_of_ascii b in
           if (128 <=? n) && (n <? 192) then None else Some (substring 0 4 d)
       end.

(** [one_line_title_stored]. *)
Definition one_line_title_stored (m : StoredMovie) : string :=
  match release_date m with
  | Some d =>
      match str_get_prefix4 d with
      | Some y => title m ++ " (" ++ y ++ ")"
      | None => title m
      end
  | None => title m
  end.

(** What [run_vote_flow] sends first: the notice, or the poll; the album,
    the descriptions and the trailer list follow the poll. *)
Inductive VoteOut :=
| VoteNotice (text : string)
| VotePoll (question : string) (options : list string) (anonymous multiple : bool).

Definition run_vote_flow (chat : Z) (anonymous multiple_ans : bool) : St VoteOut :=
  list <- get chat ;;
  if Nat.ltb (length list) 2 then
    st_ret (VoteNotice "Нужно минимум 2 фильма в списке. Добавь и повтори /vote.")
  else
    st_ret (VotePoll "Что смотрим?" (map one_line_title_stored list) anonymous multiple_ans).

(** [split_by_chars] on the characters of the string. *)
Definition split_step {A} (max : nat) (acc : list (list A) * list A) (ch : A)
  : list (list A) * list A :=
  let '(out, cur) := acc in
  let '(out, cur) := if Nat.leb max (length cur) then (out ++ [cur], []) else (out, cur) in
  (out, cur ++ [ch]).

Definition split_by_chars {A} (s : list A) (max : nat) : list (list A) :=
  if Nat.leb (length s) max then [s]
  else
    let '(out, cur) := fold_left (split_step max) s ([], []) in
    match cur with
    | [] => out
    | _ => out ++ [cur]
    end.

End Tg.

(* ================================================================== *)
(** ** Definitions that follow the specification's words, compared
       below with the ones embedded from the source *)
(* ================================================================== *)

Module SpecSide.
Import Storage Tmdb.

(** "officially-flagged": [official] present and true. *)
Definition spec_official (v : Video) : bool :=
  match official v with Some true => true | _ => false end.

(** "Trailer" before "Teaser" before any other type. *)
Definition spec_type_rank (v : Video) : nat :=
  if String.eqb (type_ v) "Trailer" then 0
  else if String.eqb (type_ v) "Teaser" then 1 else 2.

(** [v] is ranked strictly before [w] by the tie-break. *)
Definition spec_before (v w : Video) : Prop :=
  (spec_official v = true /\ spec_official w = false) \/
  (spec_official v = spec_official w /\ spec_type_rank v < spec_type_rank w).

(** [v] is ranked before [w] or level with it. *)
Definition spec_not_after (v w : Video) : Prop :=
  spec_before v w \/
  (spec_official v = spec_official w /\ spec_type_rank v = spec_type_rank w).

(** The three-way [insert] result of the specification. *)
Inductive InsertResult := Inserted | AlreadyPresent | Full.

Definition insert_spec (l : list StoredMovie) (m : StoredMovie) : InsertResult :=
  if existsb (fun x => N.eqb (id x) (id m)) l then AlreadyPresent
  else if Nat.eqb (length l) 10 then Full
  else Inserted.

Definition is_digit (c : ascii) : bool :=
  let n := nat_of_ascii c in (48 <=? n) && (n <=? 57).

Fixpoint all_digits (s : string) : bool :=
  match s with
  | EmptyString => true
  | String c s' => is_digit c && all_digits s'
  end.

(** A known release date [d] with year [y]: ISO-like [YYYY-MM-DD] (or the
    year alone). *)
Definition known_year (d y : string) : Prop :=
  String.length y = 4 /\ all_digits y = true /\
  (d = y \/ exists r, d = String.append y (String "-" r)).

(** A poll option for an entry: "<title> (<year>)" when its release date is
    known, "<title>" when it is absent (or empty). *)
Definition poll_option_ok (m : StoredMovie) (o : string) : Prop :=
  ((release_date m = None \/ release_date m = Some EmptyString) -> o = title m) /\
  (forall d y, release_date m = Some d -> known_year d y ->
     o = String.append (title m) (String.append " (" (String.append y ")"))).

End SpecSide.

(* ================================================================== *)
(** ** More of src/storage.rs: [Storage::new] *)
(* ================================================================== *)

Module StorageLoad.
Import Storage.



End StorageLoad.

(* ================================================================== *)
(** ** More of src/tmdb.rs: [movie_details_ru] *)
(* ================================================================== *)

Module TmdbDetails.
Import Tmdb.

Record MovieDetailsDto := mkMovieDetailsDto {
  md_id : N;
  md_title : string;
  md_original_title : string;
  md_overview : string;
  md_poster_path : option string;
  md_release_date : option string
}.

Record TvDetailsDto := mkTvDetailsDto {
  td_id : N;
  td_name : string;
  td_original_name : string;
  td_overview : string;
  td_poster_path : option string;
  td_first_air_date : option string
}.

(** [impl From<MovieDetailsDto> for MultiNorm]. *)
Definition from_movie_details (m : MovieDetailsDto) : MultiNorm :=
  mkMultiNorm (md_id m) Movie (md_title m) (md_original_title m) (md_overview m)
    (md_release_date m) (md_poster_path m).

(** [impl From<TvDetailsDto> for MultiNorm]. *)
Definition from_tv_details (tv : TvDetailsDto) : MultiNorm :=
  mkMultiNorm (td_id tv) Tv (td_name tv) (td_original_name tv) (td_overview tv)
    (td_first_air_date tv) (td_poster_path tv).

(** [movie_details_ru]: [resp_movie id] and [resp_tv id] answer the
    requests sent to the [movie/<id>] and [tv/<id>] URLs. *)
Definition movie_details_ru
  (resp_movie : N -> nat -> Attempt MovieDetailsDto)
  (resp_tv : N -> nat -> Attempt TvDetailsDto)
  (id : N) (media_type : MediaKind) : Result (option MultiNorm) TmdbErr :=
  match media_type with
  | Movie =>
      match outcome (get_json (resp_movie id)) with
      | Ok data => Ok (Some (from_movie_details data))
      | Err e => Err e
      end
  | Tv =>
      match outcome (get_json (resp_tv id)) with
      | Ok data => Ok (Some (from_tv_details data))
      | Err e => Err e
      end
  | Person => Ok None
  end.

(** The number of requests [movie_details_ru] sends. *)
Definition movie_details_requests
  (resp_movie : N -> nat -> Attempt MovieDetailsDto)
  (resp_tv : N -> nat -> Attempt TvDetailsDto)
  (id : N) (media_type : MediaKind) : nat :=
  match media_type with
  | Movie => attempts (get_json (resp_movie id))
  | Tv => attempts (get_json (resp_tv id))
  | Person => 0
  end.

End TmdbDetails.

(* ================================================================== *)
(** ** More of src/tg.rs: text helpers on the characters of a string *)
(* ================================================================== *)

Module TgText.

(** A Rust [String] seen through [chars()]: its Unicode scalar values. *)
Definition rchars := list N.

(** The characters of an ASCII literal. *)
Definition ascii_chars (s : string) : rchars :=
  map (fun c => N.of_nat (nat_of_ascii c)) (list_ascii_of_string s).

Definition amp : N := 38.
Definition lt_sign : N := 60.
Definition gt_sign : N := 62.
Definition ellipsis : N := 8230.

(** [str::replace(char, &str)]: every occurrence replaced. *)
Definition replace_char (c : N) (r : rchars) (s : rchars) : rchars :=
  flat_map (fun x => if N.eqb x c then r else [x]) s.

(** [html_escape]. *)
Definition html_escape (s : rchars) : rchars :=
  replace_char gt_sign (ascii_chars "&gt;")
    (replace_char lt_sign (ascii_chars "&lt;")
       (replace_char amp (ascii_chars "&amp;") s)).

(** [clip]. *)
Definition clip (s : rchars) (max : nat) : rchars :=
  if Nat.leb (length s) max then s else firstn max s ++ [ellipsis].

Definition blank_line : rchars := [10; 10]%N.

(** The loop of [join_blocks], with its [break]. *)
Fixpoint join_go (out : rchars) (blocks : list rchars) (limit_hint : nat) : rchars :=
  match blocks with
  | [] => out
  | b :: bs =>
      let piece := match out with [] => b | _ => blank_line ++ b end in
      if Nat.ltb limit_hint (length out + length piece) then out ++ piece
      else join_go (out ++ piece) bs limit_hint
  end.

(** [join_blocks]. *)
Definition join_blocks (blocks : list rchars) (limit_hint : nat) : rchars :=
  join_go [] blocks limit_hint.

(** The blocks joined by blank lines. *)
Fixpoint join_all (blocks : list rchars) : rchars :=
  match blocks with
  | [] => []
  | [b] => b
  | b :: bs => b ++ blank_line ++ join_all bs
  end.

End TgText.

(* ================================================================== *)
(** ** More of src/tg.rs: keyboards, search, reset, poster album *)
(* ================================================================== *)

Module TgFlows.
Import Storage Tmdb Tg TgText.

(** [format!("{}", id)] for a [u64] (at most 20 decimal digits). *)
Definition digit_char (d : N) : ascii := ascii_of_N (48 + d).

Fixpoint fmt_digits (fuel : nat) (n : N) : string :=
  match fuel with
  | O => EmptyString
  | S f =>
      if (n <? 10)%N then String (digit_char n) EmptyString
      else String.append (fmt_digits f (n / 10)) (String (digit_char (n mod 10)) EmptyString)
  end.

Definition fmt_u64 (n : N) : string := fmt_digits 20 n.

(** [InlineKeyboardButton::callback(text, data)]. *)
Record Button := mkButton { label : string; callback_data : string }.

(** [one_line_title] on a search result. *)
Definition one_line_title (m : Movie) : string :=
  match m_release_date m with
  | Some d =>
      match str_get_prefix4 d with
      | Some y => String.append (m_title m) (String.append " (" (String.append y ")"))
      | None => m_title m
      end
  | None => m_title m
  end.

(** [keyboard_add_results]: its loop over [rows] and [row]. *)
Definition keyboard_add_results (results : list Movie) : list (list Button) :=
  let '(rows, row) :=
    fold_left (fun '(rows, row) m =>
      let btn := mkButton (String.append "➕ " (one_line_title m))
                          (String.append "add:" (fmt_u64 (m_id m))) in
      (rows ++ [row ++ [btn]], [])) results ([], []) in
  match row with [] => rows | _ => rows ++ [row] end.

(** [keyboard_list_two_columns_stored]. *)
Definition keyboard_list_two_columns_stored (l : list StoredMovie) : list (list Button) :=
  map (fun m =>
    [mkButton (String.append "🎬 " (one_line_title_stored m))
              (String.append "show:" (fmt_u64 (id m)));
     mkButton "🗑" (String.append "del:" (fmt_u64 (id m)))]) l.

(** [char::is_whitespace]: the Unicode White_Space property. *)
Definition is_whitespace (c : N) : bool :=
  ((9 <=? c) && (c <=? 13))%N || (c =? 32)%N || (c =? 133)%N || (c =? 160)%N ||
  (c =? 5760)%N || ((8192 <=? c) && (c <=? 8202))%N || (c =? 8232)%N ||
  (c =? 8233)%N || (c =? 8239)%N || (c =? 8287)%N || (c =? 12288)%N.

(** [str::trim]. *)
Fixpoint trim_start (s : rchars) : rchars :=
  match s with
  | c :: s' => if is_whitespace c then trim_start s' else s
  | [] => []
  end.

Definition trim (s : rchars) : rchars := rev (trim_start (rev (trim_start s))).

(** What [on_search_text] sends. *)
Inductive SearchOut :=
| SearchNothingFound
| SearchFound (results : list Movie) (keyboard : list (list Button))
| SearchFailed (e : TmdbErr).

(** [on_search_text]: [text] is [message_text_any(&msg)] and [search q]
    is [tmdb.search_movies_ru(q, 10)]. *)
Definition on_search_text (search : rchars -> Result (list Movie) TmdbErr)
  (text : option rchars) (chat : Z) (w : World) : World * list SearchOut :=
  match text with
  | None => (w, [])
  | Some q =>
      let query := trim q in
      match query with
      | [] => (w, [])
      | _ =>
          match search query with
          | Err e => (w, [SearchFailed e])
          | Ok [] => (w, [SearchNothingFound])
          | Ok results =>
              (mkWorld (store w) (<[chat := results]> (last_search w)),
               [SearchFound results (keyboard_add_results results)])
          end
      end
  end.

(** [Command::Reset] in [on_command]. *)
Definition on_reset (chat : Z) (w : World) : World * string :=
  let '(_, st) := remove_chat chat (store w) in
  (mkWorld st (delete chat (last_search w)), "Список очищен.").

(** One photo of the album, with its caption. *)
Record AlbumPhoto := mkAlbumPhoto {
  photo_url : string;
  photo_caption : option rchars
}.

Fixpoint album_go (image_ok : string -> bool) (caption : option rchars)
  (i : nat) (movies : list StoredMovie) : list AlbumPhoto :=
  match movies with
  | [] => []
  | m :: ms =>
      let rest := album_go image_ok caption (S i) ms in
      match poster_path m with
      | Some p =>
          let url := String.append "https://image.tmdb.org/t/p/w500" p in
          if image_ok url then
            (if Nat.eqb i 0 then
               mkAlbumPhoto url (match caption with Some c => Some (clip c 1024) | None => None end)
             else mkAlbumPhoto url None) :: rest
          else rest
      | None => rest
      end
  end.

(** [send_album_from_stored]: the media group sent ([[]] when none). *)
Definition send_album_from_stored (image_ok : string -> bool) (movies : list StoredMovie)
  (common_caption_html : option rchars) : list AlbumPhoto :=
  album_go image_ok common_caption_html 0 (firstn 10 movies).

End TgFlows.

(* ================================================================== *)
(** ** Proofs *)
(* ================================================================== *)

Module StorageFacts.
Import Storage.

(** *** Effect of each operation on the map of chats *)

Lemma add_movie_chats c m s :
  chats (inner (snd (add_movie c m s))) =
  <[c := snd (add_step (default [] (chats (inner s) !! c)) m)]> (chats (inner s)).
Proof.
  unfold add_movie, st_bind, read_chats, modify_chats, st_ret, flush; simpl.
  destruct (add_step _ m) as [[|] e]; reflexivity.
Qed.

Lemma delete_movie_chats c i s :
  chats (inner (snd (delete_movie c i s))) =
  match chats (inner s) !! c with
  | Some l => <[c := retain_not i l]> (chats (inner s))
  | None => chats (inner s)
  end.
Proof.
  unfold delete_movie, st_bind, read_chats, modify_chats, st_ret, flush; simpl.
  destruct (chats (inner s) !! c); [|reflexivity].
  destruct (Nat.ltb _ _); reflexivity.
Qed.

Lemma put_chats c ms s :
  chats (inner (snd (put c ms s))) = <[c := truncate10 ms]> (chats (inner s)).
Proof. reflexivity. Qed.

Lemma remove_chat_chats c s :
  chats (inner (snd (remove_chat c s))) = delete c (chats (inner s)).
Proof. reflexivity. Qed.

(** *** Lists kept by each operation *)

Lemma length_truncate10 ms : length (truncate10 ms) <= 10.
Proof.
  unfold truncate10. destruct (Nat.ltb_spec 10 (length ms)).
  - rewrite length_take. lia.
  - lia.
Qed.

Lemma add_step_length l m :
  length l <= 10 -> length (snd (add_step l m)) <= 10.
Proof.
  unfold add_step. intros H.
  destruct (existsb _ l); [exact H|].
  destruct (Nat.leb_spec 10 (length l)); [exact H|].
  simpl. rewrite length_app. simpl. lia.
Qed.

Lemma existsb_id_false l m :
  existsb (fun x => N.eqb (id x) (id m)) l = false -> id m ∉ ids l.
Proof.
  induction l as [|x l IH]; simpl; intros H.
  - apply not_elem_of_nil.
  - apply orb_false_iff in H as [H1 H2].
    rewrite elem_of_cons. intros [E|E].
    + rewrite E, N.eqb_refl in H1. discriminate.
    + exact (IH H2 E).
Qed.

Lemma add_step_nodup l m :
  NoDup (ids l) -> NoDup (ids (snd (add_step l m))).
Proof.
  unfold add_step. intros H.
  destruct (existsb _ l) eqn:E; [exact H|].
  destruct (Nat.leb 10 (length l)); [exact H|].
  simpl. unfold ids. rewrite map_app. simpl.
  apply NoDup_app. split; [exact H|]. split.
  - intros x Hx Hy. apply list_elem_of_singleton in Hy. subst.
    exact (existsb_id_false l m E Hx).
  - apply NoDup_singleton.
Qed.

Lemma retain_not_sublist i l : sublist (retain_not i l) l.
Proof.
  induction l as [|x l IH]; simpl; [constructor|].
  destruct (negb _); [apply sublist_skip|apply sublist_cons]; exact IH.
Qed.

Lemma retain_not_ids_sublist i l : sublist (ids (retain_not i l)) (ids l).
Proof.
  induction l as [|x l IH]; simpl; [constructor|].
  destruct (negb _); [apply sublist_skip|apply sublist_cons]; exact IH.
Qed.

Lemma retain_not_length i l : length (retain_not i l) <= length l.
Proof. apply sublist_length, retain_not_sublist. Qed.

Lemma retain_not_nodup i l : NoDup (ids l) -> NoDup (ids (retain_not i l)).
Proof.
  intros H. eapply sublist_NoDup; [exact H|].
  apply retain_not_ids_sublist.
Qed.

(** [retain] that removes nothing leaves the vector as it was. *)
Lemma retain_not_same i l :
  length l <= length (retain_not i l) -> retain_not i l = l.
Proof.
  induction l as [|x l IH]; simpl; intros H; [reflexivity|].
  destruct (negb _).
  - simpl in H. f_equal. apply IH. lia.
  - pose proof (retain_not_length i l). lia.
Qed.

(** *** Invariant preservation over whole stores *)

Lemma all_lists_insert (P : list StoredMovie -> Prop) (cs : gmap Z (list StoredMovie)) c l :
  (forall c' l', cs !! c' = Some l' -> P l') -> P l ->
  forall c' l', <[c := l]> cs !! c' = Some l' -> P l'.
Proof.
  intros Hall Hl c' l' Hlk. apply lookup_insert_Some in Hlk as [[-> <-]|[_ Hlk]].
  - exact Hl.
  - exact (Hall _ _ Hlk).
Qed.

Lemma run_op_all_lists (P : list StoredMovie -> Prop) o s :
  P [] ->
  (forall l m, P l -> P (snd (add_step l m))) ->
  (forall l i, P l -> P (retain_not i l)) ->
  (forall c ms, o = Replace c ms -> P (truncate10 ms)) ->
  all_lists P s -> all_lists P (snd (run_op o s)).
Proof.
  intros Hnil Hadd Hdel Hrep Hs. unfold all_lists in *.
  destruct o as [c m|c i|c ms|c]; cbn [run_op].
  - unfold st_bind, st_ret. destruct (add_movie c m s) as [b s'] eqn:E. simpl.
    replace (chats (inner s')) with (chats (inner (snd (add_movie c m s))))
      by (rewrite E; reflexivity).
    rewrite add_movie_chats. apply all_lists_insert; [exact Hs|].
    apply Hadd. destruct (chats (inner s) !! c) eqn:Ec; simpl; [exact (Hs _ _ Ec)|exact Hnil].
  - unfold st_bind, st_ret. destruct (delete_movie c i s) as [b s'] eqn:E. simpl.
    replace (chats (inner s')) with (chats (inner (snd (delete_movie c i s))))
      by (rewrite E; reflexivity).
    rewrite delete_movie_chats. destruct (chats (inner s) !! c) eqn:Ec; [|exact Hs].
    apply all_lists_insert; [exact Hs|]. apply Hdel. exact (Hs _ _ Ec).
  - rewrite put_chats. apply all_lists_insert; [exact Hs|]. exact (Hrep c ms eq_refl).
  - rewrite remove_chat_chats. intros c' l' Hlk.
    apply lookup_delete_Some in Hlk as [_ Hlk]. exact (Hs _ _ Hlk).
Qed.

Lemma run_ops_all_lists (P : list StoredMovie -> Prop) os s :
  P [] ->
  (forall l m, P l -> P (snd (add_step l m))) ->
  (forall l i, P l -> P (retain_not i l)) ->
  (forall c ms, In (Replace c ms) os -> P (truncate10 ms)) ->
  all_lists P s -> all_lists P (snd (run_ops os s)).
Proof.
  intros Hnil Hadd Hdel. revert s.
  induction os as [|o os IH]; intros s Hrep Hs; simpl; [exact Hs|].
  unfold st_bind. destruct (run_op o s) as [u s1] eqn:E.
  apply IH.
  - intros c ms Hin. apply (Hrep c ms). right. exact Hin.
  - replace s1 with (snd (run_op o s)) by (rewrite E; reflexivity).
    apply run_op_all_lists; try assumption.
    intros c ms ->. apply (Hrep c ms). left. reflexivity.
Qed.

Lemma get_all_lists (P : list StoredMovie -> Prop) c s :
  P [] -> all_lists P s -> P (fst (get c s)).
Proof.
  intros Hnil Hs. unfold get, st_bind, read_chats, st_ret; simpl.
  destruct (chats (inner s) !! c) eqn:E; simpl; [exact (Hs _ _ E)|exact Hnil].
Qed.

Lemma add_step_false l m e : add_step l m = (false, e) -> e = l.
Proof.
  unfold add_step. destruct (existsb _ l); [congruence|].
  destruct (Nat.leb 10 (length l)); congruence.
Qed.

Lemma add_movie_false_id c m s s' : add_movie c m s = (false, s') -> s' = s.
Proof.
  destruct s as [[v cs] fl].
  unfold add_movie, st_bind, read_chats, modify_chats, st_ret, flush; simpl.
  destruct (cs !! c) as [l|] eqn:E; simpl.
  - destruct (add_step l m) as [[|] e] eqn:Ea; simpl; intros H; inversion H; subst.
    apply add_step_false in Ea. subst. rewrite (insert_id cs c l E). reflexivity.
  - intros H. inversion H.
Qed.

Lemma delete_movie_false_id c i s s' : delete_movie c i s = (false, s') -> s' = s.
Proof.
  destruct s as [[v cs] fl].
  unfold delete_movie, st_bind, read_chats, modify_chats, st_ret, flush; simpl.
  destruct (cs !! c) as [l|] eqn:E; simpl; [|intros H; inversion H; reflexivity].
  destruct (Nat.ltb_spec (length (retain_not i l)) (length l)); simpl;
    intros H0; inversion H0; subst.
  rewrite (retain_not_same i l) by lia.
  rewrite (insert_id cs c l E). reflexivity.
Qed.

(** [add_movie] in closed form. *)
Lemma add_movie_eq c m s :
  add_movie c m s =
  let l := default [] (chats (inner s) !! c) in
  if existsb (fun x => N.eqb (id x) (id m)) l || Nat.leb 10 (length l) then (false, s)
  else
    let fs := mkFileState (version (inner s)) (<[c := l ++ [m]]> (chats (inner s))) in
    (true, mkStorage fs (flushed s ++ [fs])).
Proof.
  destruct (add_movie c m s) as [b s'] eqn:E. simpl.
  destruct (existsb _ _ || _) eqn:Eb.
  - destruct b.
    + revert E. destruct s as [[v cs] fl].
      unfold add_movie, st_bind, read_chats, modify_chats, st_ret, flush, add_step; simpl in *.
      apply orb_true_iff in Eb as [Eb|Eb]; rewrite Eb; [discriminate|].
      destruct (existsb _ _); discriminate.
    + rewrite (add_movie_false_id _ _ _ _ E). reflexivity.
  - revert E. destruct s as [[v cs] fl].
    unfold add_movie, st_bind, read_chats, modify_chats, st_ret, flush, add_step; simpl in *.
    apply orb_false_iff in Eb as [Eb1 Eb2]. rewrite Eb1, Eb2. simpl.
    intros H. inversion H. reflexivity.
Qed.

Lemma get_eq c s : fst (get c s) = default [] (chats (inner s) !! c).
Proof. reflexivity. Qed.

End StorageFacts.

Module StoreClaims.
Import Storage StorageFacts.

Lemma fresh_well_formed : all_lists well_formed_list fresh.
Proof. intros c l H. vm_compute in H. discriminate H. Qed.

Definition dup_movie : StoredMovie := mkStoredMovie 7 "Солярис" "Solaris" None (Some "1972-03-20").

(** C1 (as stated): [get] after [replace] can return two entries with the
    same id: [put] truncates to 10 entries but keeps duplicates. *)
Lemma C1_replace_keeps_duplicate_ids :
  ~ NoDup (ids (fst (get 5 (snd (run_ops [Replace 5 [dup_movie; dup_movie]] fresh))))).
Proof.
  assert (E : fst (get 5 (snd (run_ops [Replace 5 [dup_movie; dup_movie]] fresh)))
              = [dup_movie; dup_movie]) by reflexivity.
  rewrite E. cbn. intros H. apply NoDup_cons in H as [H _]. apply H. constructor.
Qed.

(** C1 (amended): starting from a store whose lists have at most 10
    entries and distinct ids (the fresh store does), after any sequence
    of insert / deleteEntry / replace / remove, [get] returns at most 10
    entries; its ids are distinct provided every [replace] was given a list
    whose first 10 entries have distinct ids. *)
Theorem C1_get_bounded_and_unique (s : Storage) (os : list Op) (c : Z) :
  all_lists well_formed_list s ->
  length (fst (get c (snd (run_ops os s)))) <= 10 /\
  ((forall c' ms, In (Replace c' ms) os -> NoDup (ids (truncate10 ms))) ->
   NoDup (ids (fst (get c (snd (run_ops os s)))))).
Proof.
  intros Hs. split.
  - apply (get_all_lists (fun l => length l <= 10)); [simpl; lia|].
    apply run_ops_all_lists.
    + simpl. lia.
    + intros l m. apply add_step_length.
    + intros l i H. pose proof (retain_not_length i l). lia.
    + intros c' ms _. apply length_truncate10.
    + intros c' l H. exact (proj1 (Hs c' l H)).
  - intros Hrep.
    apply (get_all_lists well_formed_list); [split; [simpl; lia|constructor]|].
    apply run_ops_all_lists; [split; [simpl; lia|constructor]| | | |exact Hs].
    + intros l m [H1 H2]. split; [apply add_step_length, H1|apply add_step_nodup, H2].
    + intros l i [H1 H2]. split; [pose proof (retain_not_length i l); lia|].
      apply retain_not_nodup, H2.
    + intros c' ms Hin. split; [apply length_truncate10|exact (Hrep c' ms Hin)].
Qed.

Lemma C1_get_bounded_and_unique_witness :
  all_lists well_formed_list fresh /\
  (length (fst (get 1 (snd (run_ops [Insert 1 dup_movie; DeleteEntry 1 7] fresh)))) <= 10 /\
   ((forall c' ms, In (Replace c' ms) [Insert 1 dup_movie; DeleteEntry 1 7] ->
       NoDup (ids (truncate10 ms))) ->
    NoDup (ids (fst (get 1 (snd (run_ops [Insert 1 dup_movie; DeleteEntry 1 7] fresh))))))).
Proof.
  assert (Hf : all_lists well_formed_list fresh)
    by (intros c l H; vm_compute in H; discriminate H).
  split; [exact Hf|].
  apply (C1_get_bounded_and_unique fresh [Insert 1 dup_movie; DeleteEntry 1 7] 1).
  exact Hf.
Defined.

(** C5: an [add_movie] that returns [false] (the id is already present, or
    the list is full) and a [delete_movie] that returns [false] (nothing
    removed) leave the whole store as it was: the chat's list, in order
    and contents, and the sequence of snapshots written to disk (no flush). *)
Theorem C5_noop_mutation_unchanged :
  (forall c m s s', add_movie c m s = (false, s') -> s' = s) /\
  (forall c i s s', delete_movie c i s = (false, s') -> s' = s).
Proof. split; [exact add_movie_false_id|exact delete_movie_false_id]. Qed.

Lemma C5_noop_mutation_unchanged_witness :
  add_movie 1 dup_movie (snd (run_ops [Insert 1 dup_movie] fresh)) =
    (false, snd (run_ops [Insert 1 dup_movie] fresh)) /\
  snd (run_ops [Insert 1 dup_movie] fresh) = snd (run_ops [Insert 1 dup_movie] fresh).
Proof.
  assert (H : add_movie 1 dup_movie (snd (run_ops [Insert 1 dup_movie] fresh)) =
              (false, snd (run_ops [Insert 1 dup_movie] fresh))) by (vm_compute; reflexivity).
  split; [exact H|].
  exact (proj1 C5_noop_mutation_unchanged 1%Z dup_movie _ _ H).
Defined.

End StoreClaims.

Module TmdbFacts.
Import Tmdb.

Lemma key_leb_spec a b :
  key_leb a b = true <-> fst a < fst b \/ (fst a = fst b /\ snd a <= snd b).
Proof.
  unfold key_leb. rewrite orb_true_iff, andb_true_iff, Nat.ltb_lt, Nat.eqb_eq, Nat.leb_le.
  reflexivity.
Qed.

Lemma key_leb_false a b :
  key_leb a b = false <-> fst b < fst a \/ (fst a = fst b /\ snd b < snd a).
Proof.
  destruct (key_leb a b) eqn:E.
  - apply key_leb_spec in E. split; [discriminate|lia].
  - split; [intros _|reflexivity].
    assert (~ (fst a < fst b \/ (fst a = fst b /\ snd a <= snd b))) as N
      by (rewrite <- key_leb_spec; congruence).
    lia.
Qed.

Lemma length_insert_by_key v l : length (insert_by_key v l) = S (length l).
Proof.
  induction l as [|w l IH]; simpl; [reflexivity|].
  destruct (key_leb _ _); simpl; [reflexivity|]. rewrite IH. reflexivity.
Qed.

Lemma length_sort_by_key l : length (sort_by_key l) = length l.
Proof.
  induction l as [|v l IH]; simpl; [reflexivity|].
  rewrite length_insert_by_key, IH. reflexivity.
Qed.

(** The head of the stable sort: every element before it in the input
    has a strictly greater key, every element after it a key at least as
    large. *)
Lemma sort_by_key_head l v r :
  sort_by_key l = v :: r ->
  exists pre post, l = pre ++ v :: post /\
    Forall (fun u => key_leb (sort_key u) (sort_key v) = false) pre /\
    Forall (fun u => key_leb (sort_key v) (sort_key u) = true) post.
Proof.
  revert v r. induction l as [|x l IH]; intros v r H; [discriminate H|].
  simpl in H. destruct (sort_by_key l) as [|y r'] eqn:Es.
  - assert (l = []) as ->.
    { apply length_zero_iff_nil. rewrite <- length_sort_by_key, Es. reflexivity. }
    simpl in H. injection H as <- <-. exists [], []. simpl. auto.
  - destruct (IH y r' eq_refl) as (pre & post & -> & Hpre & Hpost).
    simpl in H. destruct (key_leb (sort_key x) (sort_key y)) eqn:Exy.
    + injection H as <- _. exists [], (pre ++ y :: post). split; [reflexivity|].
      split; [constructor|].
      apply key_leb_spec in Exy.
      apply Forall_app. split; [|constructor].
      * eapply Forall_impl; [exact Hpre|]. intros u Hu.
        apply key_leb_false in Hu. apply key_leb_spec. lia.
      * apply key_leb_spec. lia.
      * eapply Forall_impl; [exact Hpost|]. intros u Hu.
        apply key_leb_spec in Hu. apply key_leb_spec. lia.
    + injection H as <- _. exists (x :: pre), post. split; [reflexivity|].
      split; [constructor; assumption|assumption].
Qed.

Lemma sort_by_key_nil l : sort_by_key l = [] -> l = [].
Proof.
  intros H. apply length_zero_iff_nil. rewrite <- length_sort_by_key, H. reflexivity.
Qed.

Lemma filter_nil_Forall {A} (f : A -> bool) l :
  List.filter f l = [] <-> Forall (fun x => f x = false) l.
Proof.
  induction l as [|x l IH]; simpl; [split; auto|].
  destruct (f x) eqn:E; split; intros H.
  - discriminate H.
  - inversion H; congruence.
  - constructor; [exact E|apply IH, H].
  - apply IH. inversion H; assumption.
Qed.

(** However the server answers, [get_json] sends at most
    [1 + length delays] requests. *)
Lemma get_json_loop_attempts {A} (resp : nat -> Attempt A) ds k :
  attempts (get_json_loop resp ds k) <= k + 1 + length ds.
Proof.
  revert k. induction ds as [|ms ds IH]; intros k; simpl.
  - destruct (classify (resp k)); simpl; lia.
  - destruct (classify (resp k)); simpl; [lia|]. specialize (IH (S k)). lia.
Qed.

End TmdbFacts.

Module TmdbClaims.
Import Tmdb TmdbFacts SpecSide.

(** Every request answered by a 500 for the first three attempts, then
    by a 200 with a decodable body. *)
Definition fails_500_three_times (k : nat) : Attempt unit :=
  if Nat.ltb k 3 then Response 500 None else Response 200 (Some tt).

(** C2 (code_bug): with the delay iterator [[300, 800, 1500]], [get_json]
    sends a fourth request after a third retryable failure (the comment
    above it says 3 attempts): three 500s followed by a 200 yield the
    success after three delays and four requests, and a server that always
    answers 500 gets four requests before [Server 500] is returned. *)
Theorem C2_get_json_makes_four_attempts :
  get_json fails_500_three_times = mkTrace (Ok tt) [300; 800; 1500]%N 4 /\
  get_json (fun _ => @Response unit 500 None) = mkTrace (Err (Server 500)) [300; 800; 1500]%N 4.
Proof. split; reflexivity. Qed.

Definition person_page : SearchResp SearchMultiDto :=
  mkSearchResp 1 [DtoPerson 7 "Андрей Тарковский" None] 1 1.

Definition person_resp (_ : nat) : Attempt (SearchResp SearchMultiDto) :=
  Response 200 (Some person_page).

(** C3 (as stated): the client does not hand Person results to the
    caller: a search answered by one person yields no item. *)
Lemma C3_search_drops_person_result :
  search_movies_ru person_resp 10 = Ok [] /\
  search_movies_ru person_resp 10 <> Ok (firstn 10 (map from_dto (results person_page))).
Proof. split; [reflexivity|]. vm_compute. discriminate. Qed.

Lemma from_dto_filter_not_person l :
  Forall (fun x => media_type x <> Person) (map from_dto (List.filter is_movie_or_tv l)).
Proof.
  induction l as [|x l IH]; simpl; [constructor|].
  destruct x; simpl; try exact IH; constructor; try exact IH; discriminate.
Qed.

(** C3 (amended): [search_movies_ru] keeps only Movie and Tv results (it
    drops Person results itself), tags them with their kind, keeps the
    response order, returns at most [limit] items, returns [Ok []] for an
    empty remote result, and fails only when [get_json] fails. *)
Theorem C3_search_movies_ru_spec (resp : nat -> Attempt (SearchResp SearchMultiDto))
  (limit : nat) :
  (forall data, outcome (get_json resp) = Ok data ->
     search_movies_ru resp limit =
       Ok (firstn limit (map from_dto (List.filter is_movie_or_tv (results data)))) /\
     (results data = [] -> search_movies_ru resp limit = Ok [])) /\
  (forall items, search_movies_ru resp limit = Ok items ->
     length items <= limit /\ Forall (fun x => media_type x <> Person) items) /\
  (forall e, outcome (get_json resp) = Err e -> search_movies_ru resp limit = Err e).
Proof.
  unfold search_movies_ru. split; [|split].
  - intros data ->. split; [reflexivity|]. intros ->. simpl. destruct limit; reflexivity.
  - intros items. destruct (outcome (get_json resp)) as [data|e]; intros H;
      [|discriminate H].
    injection H as <-. split; [apply firstn_le_length|].
    apply Forall_take, from_dto_filter_not_person.
  - intros e ->. reflexivity.
Qed.

Lemma C3_search_movies_ru_spec_witness :
  outcome (get_json person_resp) = Ok person_page /\
  search_movies_ru person_resp 10 =
    Ok (firstn 10 (map from_dto (List.filter is_movie_or_tv (results person_page)))).
Proof.
  split; [reflexivity|].
  exact (proj1 (proj1 (C3_search_movies_ru_spec person_resp 10) person_page eq_refl)).
Defined.

Lemma official_rank_spec v :
  official_rank v = if spec_official v then 0 else 1.
Proof. unfold official_rank, spec_official. destruct (official v) as [[|]|]; reflexivity. Qed.

Lemma key_lt_spec_before v u :
  key_leb (sort_key u) (sort_key v) = false -> spec_before v u.
Proof.
  intros H. apply key_leb_false in H. unfold sort_key in H; simpl in H.
  rewrite !official_rank_spec in H. unfold spec_before.
  change (type_rank v) with (spec_type_rank v) in H.
  change (type_rank u) with (spec_type_rank u) in H.
  destruct (spec_official v), (spec_official u); lia.
Qed.

Lemma key_le_spec_not_after v u :
  key_leb (sort_key v) (sort_key u) = true -> spec_not_after v u.
Proof.
  intros H. apply key_leb_spec in H. unfold sort_key in H; simpl in H.
  rewrite !official_rank_spec in H. unfold spec_not_after, spec_before.
  change (type_rank v) with (spec_type_rank v) in H.
  change (type_rank u) with (spec_type_rank u) in H.
  destruct (spec_official v), (spec_official u); lia.
Qed.

Definition example_videos : list Video :=
  [mkVideo "teaser-unofficial" "YouTube" "Teaser" (Some false);
   mkVideo "trailer-official" "YouTube" "Trailer" (Some true);
   mkVideo "teaser-official" "YouTube" "Teaser" (Some true)].

(** C6: among the YouTube videos (site compared ignoring ASCII case) of the
    merged list, the one picked is ranked before every video preceding
    it and not after any video following it, for the order official before
    unofficial, then Trailer before Teaser before any other type; the result
    is its watch URL, and nothing when no video is on YouTube. On the
    example of the specification the official Trailer is picked. *)
Theorem C6_best_trailer_tie_break (all : list Video) :
  (pick_trailer all = None <-> Forall (fun v => is_youtube v = false) all) /\
  (forall u, pick_trailer all = Some u ->
     exists pre v post,
       List.filter is_youtube all = pre ++ v :: post /\
       u = watch_url (key v) /\
       Forall (fun w => spec_before v w) pre /\
       Forall (fun w => spec_not_after v w) post) /\
  pick_trailer example_videos = Some (watch_url "trailer-official").
Proof.
  unfold pick_trailer. split; [|split].
  - rewrite <- filter_nil_Forall. split.
    + destruct (sort_by_key (List.filter is_youtube all)) eqn:E; [|discriminate].
      intros _. exact (sort_by_key_nil _ E).
    + intros ->. reflexivity.
  - intros u. destruct (sort_by_key (List.filter is_youtube all)) as [|v r] eqn:E;
      [discriminate|].
    intros H. injection H as <-.
    destruct (sort_by_key_head _ _ _ E) as (pre & post & Hl & Hpre & Hpost).
    exists pre, v, post. split; [exact Hl|]. split; [reflexivity|]. split.
    + eapply Forall_impl; [exact Hpre|]. intros w. apply key_lt_spec_before.
    + eapply Forall_impl; [exact Hpost|]. intros w. apply key_le_spec_not_after.
  - reflexivity.
Qed.

Lemma C6_best_trailer_tie_break_witness :
  pick_trailer example_videos = Some (watch_url "trailer-official") /\
  exists pre v post,
    List.filter is_youtube example_videos = pre ++ v :: post /\
    watch_url "trailer-official" = watch_url (key v) /\
    Forall (fun w => spec_before v w) pre /\
    Forall (fun w => spec_not_after v w) post.
Proof.
  split; [reflexivity|].
  exact (proj1 (proj2 (C6_best_trailer_tie_break example_videos))
           (watch_url "trailer-official") eq_refl).
Defined.

(** C7: for a movie or a series, when both language queries fail the
    error of the second (the last) is returned; when at least one
    succeeds, the result is the tie-break over the videos of the
    successful queries, in query order, the failed one adding none. *)
Theorem C7_trailer_lookup_errors
  (fetch : string -> N -> string -> Result (list Video) TmdbErr)
  (video : MultiNorm) (sec : string) :
  section_of (media_type video) = Some sec ->
  (forall e1 e2, fetch sec (mn_id video) "ru-RU" = Err e1 ->
     fetch sec (mn_id video) "en-US" = Err e2 -> best_trailer_url fetch video = Err e2) /\
  (forall v1 e2, fetch sec (mn_id video) "ru-RU" = Ok v1 ->
     fetch sec (mn_id video) "en-US" = Err e2 ->
     best_trailer_url fetch video = Ok (pick_trailer v1)) /\
  (forall e1 v2, fetch sec (mn_id video) "ru-RU" = Err e1 ->
     fetch sec (mn_id video) "en-US" = Ok v2 ->
     best_trailer_url fetch video = Ok (pick_trailer v2)) /\
  (forall v1 v2, fetch sec (mn_id video) "ru-RU" = Ok v1 ->
     fetch sec (mn_id video) "en-US" = Ok v2 ->
     best_trailer_url fetch video = Ok (pick_trailer (v1 ++ v2))).
Proof.
  intros Hsec. unfold best_trailer_url. rewrite Hsec. simpl.
  split; [|split; [|split]]; intros x y Hru Hen; rewrite Hru, Hen; simpl;
    reflexivity.
Qed.

Definition movie_item : MultiNorm :=
  mkMultiNorm 42 Movie "Сталкер" "Stalker" "" (Some "1979-05-25") None.

Definition both_fail (_ : string) (_ : N) (lang : string) : Result (list Video) TmdbErr :=
  if String.eqb lang "ru-RU" then Err (Server 502) else Err RateLimited.

Lemma C7_trailer_lookup_errors_witness :
  section_of (media_type movie_item) = Some "movie" /\
  best_trailer_url both_fail movie_item = Err RateLimited.
Proof.
  split; [reflexivity|].
  exact (proj1 (C7_trailer_lookup_errors both_fail movie_item "movie" eq_refl)
           (Server 502) RateLimited eq_refl eq_refl).
Defined.

End TmdbClaims.

Module TgClaims.
Import Storage StorageFacts Tmdb Tg SpecSide.

(** Parameters of [on_callback] for the concrete runs below. *)
Definition no_details (_ : N) : Result (option Movie) TmdbErr := Ok None.
Definition no_image (_ : string) : bool := false.
Definition empty_world : World := mkWorld fresh ∅.

(** C9 (as stated): a token without a numeric id is not acknowledged at
    all: [on_callback] returns before answering. *)
Lemma C9_unparsable_token_unanswered :
  on_callback no_details no_image (Some "hello") (Some 1%Z) empty_world = (empty_world, []) /\
  snd (on_callback no_details no_image (Some "hello") (Some 1%Z) empty_world)
    <> [AnswerCb "Неизвестная команда"].
Proof. split; [reflexivity|]. simpl. discriminate. Qed.

(** C9 (amended): the token is split at its first ':' into an action tag
    and an id. A token whose id does not parse as [u64] (and a callback
    with no data) is ignored with no answer; a token with a numeric id and
    a tag other than add, del and show is answered "Неизвестная команда".
    In both cases the store and the search cache are unchanged. *)
Theorem C9_callback_token_parsing
  (details : N -> Result (option Movie) TmdbErr) (image_ok : string -> bool)
  (data : string) (msg_chat : option Z) (w : World) :
  on_callback details image_ok None msg_chat w = (w, []) /\
  (parse_u64 (snd (splitn2_colon data)) = None ->
     on_callback details image_ok (Some data) msg_chat w = (w, [])) /\
  (forall n, parse_u64 (snd (splitn2_colon data)) = Some n ->
     fst (splitn2_colon data) <> "add" -> fst (splitn2_colon data) <> "del" ->
     fst (splitn2_colon data) <> "show" ->
     on_callback details image_ok (Some data) msg_chat w =
       (w, [AnswerCb "Неизвестная команда"])).
Proof.
  split; [reflexivity|]. unfold on_callback.
  destruct (splitn2_colon data) as [cmd id_str]; simpl. split.
  - intros ->. reflexivity.
  - intros n -> Ha Hd Hs.
    apply String.eqb_neq in Ha, Hd, Hs. rewrite Ha, Hd, Hs. reflexivity.
Qed.

Lemma C9_callback_token_parsing_witness :
  parse_u64 (snd (splitn2_colon "vote:5")) = Some 5%N /\
  on_callback no_details no_image (Some "vote:5") (Some 1%Z) empty_world =
    (empty_world, [AnswerCb "Неизвестная команда"]).
Proof.
  split; [reflexivity|].
  apply (proj2 (proj2 (C9_callback_token_parsing no_details no_image "vote:5" (Some 1%Z)
                          empty_world)) 5%N); [reflexivity|discriminate..].
Defined.

Definition film (i : N) : Movie := mkMovie i "Фильм" "Film" None None "".

Definition ten_films : list StoredMovie :=
  map (fun i => stored_of (film i)) [1; 2; 3; 4; 5; 6; 7; 8; 9; 10]%N.

(** Chat 1 has a full list (ids 1..10); its last search offered ids 3 and 11. *)
Definition full_world : World :=
  mkWorld (mkStorage (mkFileState 1 {[1%Z := ten_films]}) []) {[1%Z := [film 3; film 11]]}.

(** C4 (as stated): in a full list, adding an id already present
    ([AlreadyPresent] by the specification's [insert]) and adding a new
    id ([Full]) are answered with the same reason, "В списке уже 10
    фильмов". *)
Lemma C4_duplicate_in_full_list_reported_as_full :
  insert_spec ten_films (stored_of (film 3)) = AlreadyPresent /\
  insert_spec ten_films (stored_of (film 11)) = Full /\
  snd (on_callback no_details no_image (Some "add:3") (Some 1%Z) full_world) =
    [AnswerCb "В списке уже 10 фильмов"] /\
  snd (on_callback no_details no_image (Some "add:11") (Some 1%Z) full_world) =
    [AnswerCb "В списке уже 10 фильмов"].
Proof. vm_compute. repeat split. Qed.

(** C4 (amended): the store's insert ([add_movie]) returns a boolean. On an
    "add" token whose id is in the chat's last search: if the chat's list
    already holds that id or has at least 10 entries, nothing changes and
    the answer is "В списке уже 10 фильмов" when the list has at least 10
    entries, else "Уже в списке"; otherwise the entry is appended, the
    store is flushed once, and the answer is "Добавлено" with the new list.
    An id missing from the last search is answered "Не нашёл фильм в
    последнем поиске". *)
Theorem C4_add_token_flow
  (details : N -> Result (option Movie) TmdbErr) (image_ok : string -> bool)
  (data : string) (msg_chat : option Z) (w : World) (n : N) :
  fst (splitn2_colon data) = "add" ->
  parse_u64 (snd (splitn2_colon data)) = Some n ->
  let c := default 0%Z msg_chat in
  let l := fst (get c (store w)) in
  let res := on_callback details image_ok (Some data) msg_chat w in
  (find_in_last_search w c n = None ->
     res = (w, [AnswerCb "Не нашёл фильм в последнем поиске"])) /\
  (forall mv, find_in_last_search w c n = Some mv ->
     (existsb (fun x => N.eqb (id x) (m_id mv)) l || Nat.leb 10 (length l) = true ->
        res = (w, [AnswerCb (if Nat.leb 10 (length l) then "В списке уже 10 фильмов"
                             else "Уже в списке")])) /\
     (existsb (fun x => N.eqb (id x) (m_id mv)) l || Nat.leb 10 (length l) = false ->
        fst (get c (store (fst res))) = l ++ [stored_of mv] /\
        flushed (store (fst res)) = flushed (store w) ++ [inner (store (fst res))] /\
        last_search (fst res) = last_search w /\
        snd res = [AnswerCb "Добавлено"; ListView (l ++ [stored_of mv])])).
Proof.
  intros Hcmd Hid c l res. subst res.
  unfold on_callback. destruct (splitn2_colon data) as [cmd id_str]. simpl in Hcmd, Hid.
  subst cmd. rewrite Hid. cbn [String.eqb Ascii.eqb Bool.eqb andb].
  fold c. unfold on_add. split.
  - intros ->. reflexivity.
  - intros mv Hf. rewrite Hf. rewrite add_movie_eq.
    change (id (stored_of mv)) with (m_id mv).
    change (default [] (chats (inner (store w)) !! c)) with l.
    cbv zeta. split.
    + intros Hb. rewrite Hb. change (fst (get c (store w))) with l.
      destruct (Nat.leb 10 (length l)); destruct w as [st ls]; reflexivity.
    + intros Hb. rewrite Hb. rewrite !get_eq.
      cbn [fst snd inner chats store last_search flushed].
      rewrite lookup_insert_eq. cbn [default].
      split; [reflexivity|]. split; [reflexivity|]. split; [reflexivity|].
      destruct l; reflexivity.
Qed.

Lemma C4_add_token_flow_witness :
  fst (splitn2_colon "add:3") = "add" /\
  parse_u64 (snd (splitn2_colon "add:3")) = Some 3%N /\
  on_callback no_details no_image (Some "add:3") (Some 1%Z) full_world =
    (full_world, [AnswerCb "В списке уже 10 фильмов"]).
Proof.
  split; [reflexivity|]. split; [reflexivity|].
  apply (proj1 (proj2 (C4_add_token_flow no_details no_image "add:3" (Some 1%Z) full_world 3%N
                         eq_refl eq_refl) (film 3) eq_refl)).
  vm_compute. reflexivity.
Defined.

Lemma one_line_title_stored_ok m : poll_option_ok m (one_line_title_stored m).
Proof.
  split.
  - intros [H|H]; unfold one_line_title_stored; rewrite H; reflexivity.
  - intros d y Hd (Hlen & _ & Hform). unfold one_line_title_stored. rewrite Hd.
    destruct y as [|a [|b [|c0 [|d0 [|e y']]]]]; simpl in Hlen; try discriminate.
    destruct Hform as [->|(r & ->)]; reflexivity.
Qed.

Lemma Forall2_map_r {A B} (P : A -> B -> Prop) (f : A -> B) l :
  (forall x, P x (f x)) -> Forall2 P l (map f l).
Proof. intros H. induction l as [|x l IH]; simpl; constructor; [apply H|exact IH]. Qed.

(** C8: with fewer than 2 entries in the chat's list, [run_vote_flow]
    sends the "Нужно минимум 2 фильма" notice and no poll; with n >= 2
    entries it sends a poll with n options, one per entry in list order,
    each "<title> (<year>)" when the entry's release date is known
    (ISO-like), "<title>" when it is absent or empty. *)
Theorem C8_vote_flow (chat : Z) (anonymous multiple_ans : bool) (s : Storage) :
  let l := fst (get chat s) in
  (length l < 2 ->
     fst (run_vote_flow chat anonymous multiple_ans s) =
       VoteNotice "Нужно минимум 2 фильма в списке. Добавь и повтори /vote.") /\
  (2 <= length l ->
     exists opts,
       fst (run_vote_flow chat anonymous multiple_ans s) =
         VotePoll "Что смотрим?" opts anonymous multiple_ans /\
       length opts = length l /\
       Forall2 poll_option_ok l opts).
Proof.
  intros l. unfold run_vote_flow, st_bind, st_ret.
  change (fst (get chat s)) with l. change (get chat s) with (l, s). cbn [fst].
  split.
  - intros H. apply Nat.ltb_lt in H. rewrite H. reflexivity.
  - intros H. assert (H' : Nat.ltb (length l) 2 = false) by (apply Nat.ltb_ge; exact H).
    rewrite H'. exists (map one_line_title_stored l). split; [reflexivity|]. split.
    + apply length_map.
    + apply Forall2_map_r, one_line_title_stored_ok.
Qed.

Definition two_films_store : Storage :=
  mkStorage (mkFileState 1
    {[1%Z := [mkStoredMovie 1 "Сталкер" "Stalker" None (Some "1979-05-25");
              mkStoredMovie 2 "Зеркало" "Mirror" None None]]}) [].

Lemma C8_vote_flow_witness :
  2 <= length (fst (get 1%Z two_films_store)) /\
  exists opts,
    fst (run_vote_flow 1%Z true false two_films_store) =
      VotePoll "Что смотрим?" opts true false /\
    length opts = length (fst (get 1%Z two_films_store)) /\
    Forall2 poll_option_ok (fst (get 1%Z two_films_store)) opts.
Proof.
  assert (H : 2 <= length (fst (get 1%Z two_films_store))) by (vm_compute; lia).
  split; [exact H|].
  exact (proj2 (C8_vote_flow 1%Z true false two_films_store) H).
Defined.

Lemma split_fold_inv {A} (max : nat) (s : list A) out cur :
  1 <= max ->
  Forall (fun chunk => length chunk <= max) out -> length cur <= max ->
  Forall (fun chunk => length chunk <= max) (fst (fold_left (split_step max) s (out, cur))) /\
  length (snd (fold_left (split_step max) s (out, cur))) <= max /\
  List.concat (fst (fold_left (split_step max) s (out, cur))) ++
    snd (fold_left (split_step max) s (out, cur)) = List.concat out ++ cur ++ s.
Proof.
  intros Hmax. revert out cur.
  induction s as [|x s IH]; intros out cur Hout Hcur; simpl.
  - rewrite app_nil_r. auto.
  - unfold split_step at 2. destruct (Nat.leb_spec max (length cur)).
    + cbn [app]. destruct (IH (out ++ [cur]) [x]) as (H1 & H2 & H3).
      * apply Forall_app. split; [exact Hout|]. constructor; [lia|constructor].
      * simpl. lia.
      * split; [exact H1|]. split; [exact H2|]. rewrite H3, concat_app. simpl.
        rewrite app_nil_r, <- !app_assoc. reflexivity.
    + destruct (IH out (cur ++ [x])) as (H1 & H2 & H3).
      * exact Hout.
      * rewrite length_app. simpl. lia.
      * split; [exact H1|]. split; [exact H2|]. rewrite H3, <- app_assoc. reflexivity.
Qed.

(** C10: for [max >= 1], [split_by_chars s max] is a list of chunks of at
    most [max] characters whose concatenation is [s]; when [s] has at most
    [max] characters it is the single chunk [s]. *)
Theorem C10_split_by_chars {A : Type} (s : list A) (max : nat) :
  1 <= max ->
  Forall (fun chunk => length chunk <= max) (split_by_chars s max) /\
  List.concat (split_by_chars s max) = s /\
  (length s <= max -> split_by_chars s max = [s]).
Proof.
  intros Hmax. unfold split_by_chars.
  destruct (Nat.leb_spec (length s) max) as [Hle|Hgt].
  - split; [constructor; [exact Hle|constructor]|].
    split; [simpl; apply app_nil_r|reflexivity].
  - destruct (split_fold_inv max s [] [] Hmax (List.Forall_nil _) (Nat.le_0_l _))
      as (H1 & H2 & H3).
    destruct (fold_left (split_step max) s ([], [])) as [out cur]. simpl in *.
    split; [|split; [|lia]].
    + destruct cur; [exact H1|]. apply Forall_app. split; [exact H1|].
      constructor; [exact H2|constructor].
    + destruct cur as [|ch cur].
      * rewrite app_nil_r in H3. exact H3.
      * rewrite concat_app. simpl. rewrite app_nil_r. exact H3.
Qed.

Lemma C10_split_by_chars_witness :
  1 <= 2 /\
  Forall (fun chunk => length chunk <= 2) (split_by_chars [1; 2; 3; 4; 5] 2) /\
  List.concat (split_by_chars [1; 2; 3; 4; 5] 2) = [1; 2; 3; 4; 5] /\
  (length [1; 2; 3; 4; 5] <= 2 -> split_by_chars [1; 2; 3; 4; 5] 2 = [[1; 2; 3; 4; 5]]).
Proof.
  split; [lia|]. apply (C10_split_by_chars [1; 2; 3; 4; 5] 2). lia.
Defined.

End TgClaims.

Module StoreExtra.
Import Storage StorageFacts StorageLoad.

Lemma truncate10_firstn ms : truncate10 ms = firstn 10 ms.
Proof.
  unfold truncate10. destruct (Nat.ltb_spec 10 (length ms)); [reflexivity|].
  symmetry. apply firstn_all2. lia.
Qed.

(** [put] then [get]: the chat holds the first 10 given entries, in order;
    other chats are untouched; the store is flushed once. *)
Theorem put_then_get (c c' : Z) (ms : list StoredMovie) (s : Storage) :
  fst (get c (snd (put c ms s))) = firstn 10 ms /\
  (c' <> c -> fst (get c' (snd (put c ms s))) = fst (get c' s)) /\
  flushed (snd (put c ms s)) = flushed s ++ [inner (snd (put c ms s))].
Proof.
  rewrite !get_eq, put_chats. split; [|split].
  - rewrite lookup_insert_eq. apply truncate10_firstn.
  - intros Hne. rewrite lookup_insert_ne by congruence. reflexivity.
  - reflexivity.
Qed.

Lemma put_then_get_witness :
  (2%Z <> 1%Z) /\
  fst (get 2%Z (snd (put 1%Z [] fresh))) = fst (get 2%Z fresh).
Proof.
  split; [lia|]. apply (proj1 (proj2 (put_then_get 1%Z 2%Z [] fresh))). lia.
Defined.

(** [remove_chat] then [get]: the chat's list is empty, other chats are
    untouched, the store is flushed once. *)
Theorem remove_chat_then_get (c c' : Z) (s : Storage) :
  fst (get c (snd (remove_chat c s))) = [] /\
  (c' <> c -> fst (get c' (snd (remove_chat c s))) = fst (get c' s)) /\
  flushed (snd (remove_chat c s)) = flushed s ++ [inner (snd (remove_chat c s))].
Proof.
  rewrite !get_eq, remove_chat_chats. split; [|split].
  - rewrite lookup_delete_eq. reflexivity.
  - intros Hne. rewrite lookup_delete_ne by congruence. reflexivity.
  - reflexivity.
Qed.

Lemma remove_chat_then_get_witness :
  (2%Z <> 1%Z) /\
  fst (get 2%Z (snd (remove_chat 1%Z fresh))) = fst (get 2%Z fresh).
Proof.
  split; [lia|]. apply (proj1 (proj2 (remove_chat_then_get 1%Z 2%Z fresh))). lia.
Defined.

Lemma retain_not_removed i l :
  Nat.ltb (length (retain_not i l)) (length l) = existsb (fun x => N.eqb (id x) i) l.
Proof.
  induction l as [|x l IH]; simpl; [reflexivity|].
  destruct (N.eqb (id x) i); simpl.
  - apply Nat.ltb_lt. pose proof (retain_not_length i l). lia.
  - rewrite <- IH. reflexivity.
Qed.

Lemma retain_not_no_id i l : Forall (fun x => id x <> i) (retain_not i l).
Proof.
  induction l as [|x l IH]; simpl; [constructor|].
  destruct (N.eqb_spec (id x) i); simpl; [exact IH|constructor; assumption].
Qed.

(** [delete_movie] in closed form. *)
Lemma delete_movie_eq c i s :
  delete_movie c i s =
  match chats (inner s) !! c with
  | Some l =>
      if existsb (fun x => N.eqb (id x) i) l then
        let fs := mkFileState (version (inner s)) (<[c := retain_not i l]> (chats (inner s))) in
        (true, mkStorage fs (flushed s ++ [fs]))
      else (false, s)
  | None => (false, s)
  end.
Proof.
  destruct s as [[v cs] fl].
  unfold delete_movie, st_bind, read_chats, modify_chats, st_ret, flush; simpl.
  destruct (cs !! c) as [l|] eqn:E; [|reflexivity].
  rewrite retain_not_removed.
  destruct (existsb _ l) eqn:Ex; [reflexivity|].
  pose proof (retain_not_removed i l) as H. rewrite Ex in H.
  apply Nat.ltb_ge in H. rewrite (retain_not_same i l) by lia.
  rewrite (insert_id cs c l E). reflexivity.
Qed.

(** [delete_movie]: it returns whether an entry with that id was in the
    chat's list; afterwards the list is the old one without the entries of
    that id, in the same order; other chats are untouched; the store is
    flushed once exactly when something was removed. *)
Theorem delete_movie_then_get (c c' : Z) (i : N) (s : Storage) :
  let l := fst (get c s) in
  let '(removed, s') := delete_movie c i s in
  removed = existsb (fun x => N.eqb (id x) i) l /\
  fst (get c s') = retain_not i l /\
  Forall (fun x => id x <> i) (fst (get c s')) /\
  (c' <> c -> fst (get c' s') = fst (get c' s)) /\
  flushed s' = (if removed then flushed s ++ [inner s'] else flushed s).
Proof.
  intros l. unfold l. rewrite delete_movie_eq, !get_eq.
  destruct (chats (inner s) !! c) as [l0|] eqn:Ec; cbn [default from_option Datatypes.id].
  - destruct (existsb _ l0) eqn:Ex; cbn [inner chats flushed].
    + rewrite !get_eq. cbn [inner chats]. rewrite lookup_insert_eq. cbn [default from_option Datatypes.id].
      split; [reflexivity|]. split; [reflexivity|]. split; [apply retain_not_no_id|].
      split; [|reflexivity]. intros Hne. rewrite lookup_insert_ne by congruence. reflexivity.
    + cbn [default from_option Datatypes.id]. split; [reflexivity|].
      pose proof (retain_not_removed i l0) as H. rewrite Ex in H. apply Nat.ltb_ge in H.
      rewrite (retain_not_same i l0) by lia. rewrite get_eq, Ec.
      cbn [default from_option Datatypes.id]. split; [reflexivity|].
      split; [|split; [intros _; reflexivity|reflexivity]].
      rewrite <- (retain_not_same i l0) at 1 by lia. apply retain_not_no_id.
  - rewrite get_eq, Ec. repeat split; constructor.
Qed.

Lemma delete_movie_then_get_witness :
  (2%Z <> 1%Z) /\ fst (get 2%Z (snd (delete_movie 1%Z 7 fresh))) = fst (get 2%Z fresh).
Proof.
  split; [lia|].
  pose proof (delete_movie_then_get 1%Z 2%Z 7 fresh) as H.
  destruct (delete_movie 1%Z 7 fresh) as [removed s'] eqn:E.
  destruct H as (_ & _ & _ & H & _). exact (H ltac:(lia)).
Defined.

(** [add_movie]: it returns [true] exactly when no entry of the chat has
    the movie's id and the list has fewer than 10 entries; then the list
    is the old one with the movie appended, other chats are untouched and
    the store is flushed once. *)
Theorem add_movie_then_get (c c' : Z) (m : StoredMovie) (s : Storage) :
  let l := fst (get c s) in
  let '(added, s') := add_movie c m s in
  added = negb (existsb (fun x => N.eqb (id x) (id m)) l) && Nat.ltb (length l) 10 /\
  (added = true ->
     fst (get c s') = l ++ [m] /\
     (c' <> c -> fst (get c' s') = fst (get c' s)) /\
     flushed s' = flushed s ++ [inner s']).
Proof.
  intros l. rewrite add_movie_eq. unfold l. rewrite get_eq. cbv zeta.
  set (l0 := default [] (chats (inner s) !! c)).
  destruct (existsb _ l0) eqn:Ee; cbn [orb negb andb].
  - split; [reflexivity|discriminate].
  - destruct (Nat.leb 10 (length l0)) eqn:El.
    + apply Nat.leb_le in El. split; [apply eq_sym, Nat.ltb_ge; lia|discriminate].
    + apply Nat.leb_gt in El. split; [apply eq_sym, Nat.ltb_lt; lia|]. intros _.
      rewrite !get_eq. cbn [inner chats flushed]. rewrite lookup_insert_eq.
      split; [reflexivity|]. split; [|reflexivity].
      intros Hne. rewrite lookup_insert_ne by congruence. reflexivity.
Qed.

Lemma add_movie_then_get_witness :
  fst (add_movie 1%Z StoreClaims.dup_movie fresh) = true /\
  fst (get 1%Z (snd (add_movie 1%Z StoreClaims.dup_movie fresh))) = [StoreClaims.dup_movie].
Proof.
  split; [reflexivity|].
  pose proof (add_movie_then_get 1%Z 2%Z StoreClaims.dup_movie fresh) as H.
  destruct (add_movie 1%Z StoreClaims.dup_movie fresh) as [added s'] eqn:E.
  destruct H as (Ha & H). vm_compute in Ha. subst added.
  destruct (H eq_refl) as (H1 & _). exact H1.
Defined.

(** The document last written to disk ([d0] before any write). *)
Definition on_disk (d0 : FileState) (s : Storage) : FileState :=
  default d0 (last (flushed s)).

(** After every store operation the document on disk is the in-memory
    one, if it was before: each operation that changes the memory flushes
    it, and the others change nothing. *)
Theorem on_disk_matches_memory (d0 : FileState) (os : list Op) (s : Storage) :
  on_disk d0 s = inner s -> on_disk d0 (snd (run_ops os s)) = inner (snd (run_ops os s)).
Proof.
  revert s. induction os as [|o os IH]; intros s Hs; [exact Hs|].
  simpl. unfold st_bind. destruct (run_op o s) as [u s1] eqn:E. apply IH.
  replace s1 with (snd (run_op o s)) by (rewrite E; reflexivity). clear E.
  destruct o as [c m|c i|c ms|c]; cbn [run_op]; unfold st_bind, st_ret.
  - destruct (add_movie c m s) as [[|] s'] eqn:Ea; simpl.
    + revert Ea. rewrite add_movie_eq. cbv zeta.
      destruct (_ || _); intros H; inversion H; subst.
      unfold on_disk. cbn [flushed inner]. rewrite last_snoc. reflexivity.
    + rewrite (add_movie_false_id _ _ _ _ Ea). exact Hs.
  - destruct (delete_movie c i s) as [[|] s'] eqn:Ed; simpl.
    + revert Ed. rewrite delete_movie_eq.
      destruct (chats (inner s) !! c); [|discriminate].
      destruct (existsb _ _); intros H; inversion H; subst.
      unfold on_disk. cbn [flushed inner]. rewrite last_snoc. reflexivity.
    + rewrite (delete_movie_false_id _ _ _ _ Ed). exact Hs.
  - unfold put, modify_chats, flush, on_disk; simpl. rewrite last_snoc. reflexivity.
  - unfold remove_chat, modify_chats, flush, on_disk; simpl. rewrite last_snoc. reflexivity.
Qed.

Lemma on_disk_matches_memory_witness :
  on_disk (inner fresh) fresh = inner fresh /\
  on_disk (inner fresh) (snd (run_ops [Insert 1 StoreClaims.dup_movie; DeleteEntry 1 7] fresh)) =
    inner (snd (run_ops [Insert 1 StoreClaims.dup_movie; DeleteEntry 1 7] fresh)).
Proof.
  assert (H : on_disk (inner fresh) fresh = inner fresh) by reflexivity.
  split; [exact H|]. exact (on_disk_matches_memory _ _ _ H).
Defined.




End StoreExtra.

Module TmdbExtra.
Import Tmdb TmdbDetails.

Definition is_retry {A} (s : Step A) : bool :=
  match s with Retry _ => true | Done _ => false end.

Lemma get_json_loop_trace {A} (resp : nat -> Attempt A) ds k :
  let t := get_json_loop resp ds k in
  S k <= attempts t <= S k + length ds /\
  slept t = firstn (attempts t - S k) ds /\
  (forall j, k <= j -> j < attempts t - 1 -> is_retry (classify (resp j)) = true) /\
  match classify (resp (attempts t - 1)) with
  | Done r => outcome t = r
  | Retry e => attempts t = S k + length ds /\ outcome t = Err e
  end.
Proof.
  revert k. induction ds as [|ms ds IH]; intros k; cbn zeta.
  - simpl. destruct (classify (resp k)) eqn:E; simpl; rewrite ?Nat.sub_diag, ?Nat.sub_0_r, ?E;
      (split; [lia|]); (split; [reflexivity|]); (split; [intros j Hj1 Hj2; lia|]);
      [reflexivity|split; [lia|reflexivity]].
  - simpl. destruct (classify (resp k)) eqn:E; simpl.
    + rewrite Nat.sub_diag, Nat.sub_0_r, E.
      split; [lia|]. split; [reflexivity|]. split; [intros j Hj1 Hj2; lia|reflexivity].
    + specialize (IH (S k)). cbn zeta in IH.
      destruct IH as (Hb & Hs & Hr & Hl).
      split; [lia|]. split.
      * rewrite Hs. replace (attempts (get_json_loop resp ds (S k)) - S k)
          with (S (attempts (get_json_loop resp ds (S k)) - S (S k))) by lia.
        reflexivity.
      * split.
        -- intros j Hj1 Hj2. destruct (Nat.eq_dec j k) as [->|Hne]; [rewrite E; reflexivity|].
           apply Hr; lia.
        -- destruct (classify (resp (attempts (get_json_loop resp ds (S k)) - 1))); [exact Hl|].
           destruct Hl as [Ha Ho]. split; [lia|exact Ho].
Qed.

(** [get_json] sends between one and four requests; before each request
    after the first it sleeps the next delay of 300, 800, 1500 ms; every
    request but the last got a retryable answer (a transport failure, a
    429 or a 5xx); the result is the last answer's mapped result, or, when
    that answer is retryable too, the fourth request has been sent and its
    error is returned. *)
Theorem get_json_trace {A} (resp : nat -> Attempt A) :
  let t := get_json resp in
  1 <= attempts t <= 4 /\
  slept t = firstn (attempts t - 1) backoff_delays /\
  (forall j, j < attempts t - 1 -> is_retry (classify (resp j)) = true) /\
  match classify (resp (attempts t - 1)) with
  | Done r => outcome t = r
  | Retry e => attempts t = 4 /\ outcome t = Err e
  end.
Proof.
  pose proof (get_json_loop_trace resp backoff_delays 0) as H. cbn zeta in *.
  unfold get_json. destruct H as (Hb & Hs & Hr & Hl).
  split; [exact Hb|]. split; [exact Hs|]. split; [intros j Hj; apply Hr; lia|exact Hl].
Qed.

(** When the first answer is neither a transport failure, nor a 429, nor
    a 5xx, [get_json] sends no second request and sleeps no delay: a 200
    gives the decoded body ([Net] when it does not decode), 401 [Auth],
    403 [Forbidden], 404 [NotFound], any other status [Unexpected]. *)
Theorem get_json_first_final {A} (resp : nat -> Attempt A) (s : N) (body : option A) :
  resp 0 = Response s body -> s <> 429%N -> is_server_error s = false ->
  attempts (get_json resp) = 1 /\ slept (get_json resp) = [] /\
  outcome (get_json resp) =
    (if (s =? 200)%N then match body with Some v => Ok v | None => Err Net end
     else if (s =? 401)%N then Err Auth
     else if (s =? 403)%N then Err Forbidden
     else if (s =? 404)%N then Err NotFound
     else Err (Unexpected s)).
Proof.
  intros H0 H429 H5. unfold get_json, get_json_loop, backoff_delays. rewrite H0.
  unfold classify. rewrite H5.
  destruct (N.eqb_spec s 200); [simpl; auto|].
  destruct (N.eqb_spec s 429); [contradiction|].
  destruct (N.eqb_spec s 401); [simpl; auto|].
  destruct (N.eqb_spec s 403); [simpl; auto|].
  destruct (N.eqb_spec s 404); simpl; auto.
Qed.

Lemma get_json_first_final_witness :
  let resp := fun (_ : nat) => Response (A := unit) 418 None in
  resp 0 = Response 418 None /\ 418%N <> 429%N /\ is_server_error 418 = false /\
  attempts (get_json resp) = 1 /\ slept (get_json resp) = [] /\
  outcome (get_json resp) =
    (if (418 =? 200)%N then Err Net
     else if (418 =? 401)%N then Err Auth
     else if (418 =? 403)%N then Err Forbidden
     else if (418 =? 404)%N then Err NotFound
     else Err (Unexpected 418)).
Proof.
  intros resp.
  assert (H1 : resp 0 = Response 418 None) by reflexivity.
  assert (H2 : 418%N <> 429%N) by (intro H; discriminate H).
  assert (H3 : is_server_error 418 = false) by reflexivity.
  split; [exact H1|]. split; [exact H2|]. split; [exact H3|].
  exact (get_json_first_final resp 418 None H1 H2 H3).
Defined.

(** [movie_details_ru] sends no request for a person and answers
    [Ok None]; for a movie or a series it returns [Ok (Some n)] only with
    [n]'s media type the one asked for, and otherwise the error of
    [get_json] on the matching URL. *)
Theorem movie_details_ru_kind resp_movie resp_tv (id : N) (k : MediaKind) :
  (k = Person -> movie_details_ru resp_movie resp_tv id k = Ok None /\
                 movie_details_requests resp_movie resp_tv id k = 0) /\
  (forall n, movie_details_ru resp_movie resp_tv id k = Ok (Some n) ->
     k <> Person /\ media_type n = k) /\
  (k = Movie -> forall e, movie_details_ru resp_movie resp_tv id k = Err e <->
     outcome (get_json (resp_movie id)) = Err e) /\
  (k = Tv -> forall e, movie_details_ru resp_movie resp_tv id k = Err e <->
     outcome (get_json (resp_tv id)) = Err e).
Proof.
  split; [|split; [|split]].
  - intros ->. split; reflexivity.
  - intros n. destruct k; simpl.
    + destruct (outcome _); intros H; inversion H; subst. split; [discriminate|reflexivity].
    + destruct (outcome _); intros H; inversion H; subst. split; [discriminate|reflexivity].
    + discriminate.
  - intros -> e. simpl. destruct (outcome _); split; intros H; inversion H; reflexivity.
  - intros -> e. simpl. destruct (outcome _); split; intros H; inversion H; reflexivity.
Qed.

Definition details_404 (_ : N) (_ : nat) : Attempt MovieDetailsDto := Response 404 None.
Definition tv_ok (i : N) (_ : nat) : Attempt TvDetailsDto :=
  Response 200 (Some (mkTvDetailsDto i "Сериал" "Series" "" None None)).

Lemma movie_details_ru_kind_witness :
  movie_details_ru details_404 tv_ok 5 Person = Ok None /\
  (movie_details_ru details_404 tv_ok 5 Tv = Ok (Some (from_tv_details
     (mkTvDetailsDto 5 "Сериал" "Series" "" None None))) -> Tv <> Person /\ Tv = Tv) /\
  (movie_details_ru details_404 tv_ok 5 Movie = Err NotFound <->
     outcome (get_json (details_404 5)) = Err NotFound).
Proof.
  pose proof (movie_details_ru_kind details_404 tv_ok 5 Person) as HP.
  pose proof (movie_details_ru_kind details_404 tv_ok 5 Tv) as HT.
  pose proof (movie_details_ru_kind details_404 tv_ok 5 Movie) as HM.
  split; [exact (proj1 (proj1 HP eq_refl))|]. split.
  - intros H. exact (proj1 (proj2 HT) _ H).
  - exact (proj1 (proj2 (proj2 HM)) eq_refl NotFound).
Defined.

End TmdbExtra.

Module TextExtra.
Import Tg TgText.

(** The entity [html_escape] writes for one character. *)
Definition escape_one (c : N) : rchars :=
  if N.eqb c amp then ascii_chars "&amp;"
  else if N.eqb c lt_sign then ascii_chars "&lt;"
  else if N.eqb c gt_sign then ascii_chars "&gt;"
  else [c].

Lemma replace_char_app c r s t :
  replace_char c r (s ++ t) = replace_char c r s ++ replace_char c r t.
Proof. unfold replace_char. apply flat_map_app. Qed.

Lemma html_escape_app s t : html_escape (s ++ t) = html_escape s ++ html_escape t.
Proof. unfold html_escape. rewrite !replace_char_app. reflexivity. Qed.

Lemma html_escape_one x : html_escape [x] = escape_one x.
Proof.
  unfold html_escape, escape_one, amp, lt_sign, gt_sign.
  destruct (N.eqb_spec x 38); [subst; reflexivity|].
  destruct (N.eqb_spec x 60); [subst; reflexivity|].
  destruct (N.eqb_spec x 62); [subst; reflexivity|].
  apply N.eqb_neq in n, n0, n1. simpl. rewrite n. simpl. rewrite n0. simpl.
  rewrite n1. reflexivity.
Qed.

(** [html_escape] replaces each [&], [<] and [>] of the text by its
    entity in a single pass: the [&] of an entity written for [<] or [>]
    is not escaped again. The result has no [<] and no [>], and a text
    with none of the three characters is returned unchanged. *)
Theorem html_escape_single_pass (s : rchars) :
  html_escape s = flat_map escape_one s /\
  Forall (fun c => c <> lt_sign /\ c <> gt_sign) (html_escape s) /\
  (Forall (fun c => c <> amp /\ c <> lt_sign /\ c <> gt_sign) s -> html_escape s = s).
Proof.
  assert (Heq : forall s, html_escape s = flat_map escape_one s).
  { induction s0 as [|x s0 IH]; [reflexivity|].
    change (x :: s0) with ([x] ++ s0). rewrite html_escape_app, html_escape_one, IH.
    reflexivity. }
  split; [apply Heq|]. split.
  - rewrite Heq. apply Forall_flat_map. apply Forall_forall. intros x _.
    unfold escape_one, amp, lt_sign, gt_sign.
    destruct (N.eqb_spec x 38); [repeat constructor; discriminate|].
    destruct (N.eqb_spec x 60); [repeat constructor; discriminate|].
    destruct (N.eqb_spec x 62); [repeat constructor; discriminate|].
    repeat constructor; assumption.
  - intros H. rewrite Heq. induction H as [|x s Hx Hs IH]; [reflexivity|].
    simpl. rewrite IH. unfold escape_one.
    destruct Hx as (H1 & H2 & H3).
    destruct (N.eqb_spec x amp); [contradiction|].
    destruct (N.eqb_spec x lt_sign); [contradiction|].
    destruct (N.eqb_spec x gt_sign); [contradiction|]. reflexivity.
Qed.

Lemma html_escape_single_pass_witness :
  Forall (fun c => c <> amp /\ c <> lt_sign /\ c <> gt_sign) [72%N; 105%N] /\
  html_escape [72%N; 105%N] = [72%N; 105%N].
Proof.
  assert (H : Forall (fun c => c <> amp /\ c <> lt_sign /\ c <> gt_sign) [72%N; 105%N]).
  { repeat constructor; unfold amp, lt_sign, gt_sign; discriminate. }
  split; [exact H|]. exact (proj2 (proj2 (html_escape_single_pass [72%N; 105%N])) H).
Defined.

(** [clip s max] has at most [max + 1] characters and starts with the
    first [max] characters of [s]; it is [s] itself when [s] has at most
    [max] characters, and otherwise ends with an ellipsis. *)
Theorem clip_bounds (s : rchars) (max : nat) :
  length (clip s max) <= max + 1 /\
  firstn max (clip s max) = firstn max s /\
  (length s <= max -> clip s max = s) /\
  (max < length s -> last (clip s max) = Some ellipsis /\ length (clip s max) = max + 1).
Proof.
  unfold clip. destruct (Nat.leb_spec (length s) max) as [Hle|Hgt].
  - split; [lia|]. split; [reflexivity|]. split; [reflexivity|lia].
  - rewrite length_app, length_firstn. simpl.
    split; [lia|]. split.
    + rewrite firstn_app, length_firstn, firstn_firstn.
      replace (max - Nat.min max (length s)) with 0 by lia. rewrite app_nil_r.
      f_equal. lia.
    + split; [lia|]. intros _. split; [apply last_snoc|lia].
Qed.

Lemma clip_bounds_witness :
  (length [65%N; 66%N] <= 5 -> clip [65%N; 66%N] 5 = [65%N; 66%N]) /\
  (1 < length [65%N; 66%N] -> last (clip [65%N; 66%N] 1) = Some ellipsis /\
     length (clip [65%N; 66%N] 1) = 1 + 1).
Proof.
  split.
  - exact (proj1 (proj2 (proj2 (clip_bounds [65%N; 66%N] 5)))).
  - exact (proj2 (proj2 (proj2 (clip_bounds [65%N; 66%N] 1)))).
Defined.

Definition sep_all (bs : list rchars) : rchars := flat_map (fun b => blank_line ++ b) bs.

Lemma join_all_cons b bs : join_all (b :: bs) = b ++ sep_all bs.
Proof.
  revert b. induction bs as [|b' bs IH]; intros b.
  - simpl. rewrite app_nil_r. reflexivity.
  - change (join_all (b :: b' :: bs)) with (b ++ blank_line ++ join_all (b' :: bs)).
    rewrite IH. unfold sep_all. simpl. reflexivity.
Qed.

Lemma sep_all_cons (out b : rchars) bs :
  out ++ sep_all (b :: bs) = (out ++ blank_line ++ b) ++ sep_all bs.
Proof. unfold sep_all. cbn [flat_map]. rewrite <- !app_assoc. reflexivity. Qed.

Lemma join_go_nonempty out bs L :
  out <> [] -> length out <= L ->
  exists n, join_go out bs L = out ++ sep_all (firstn n bs) /\
    ((n = length bs /\ length (join_go out bs L) <= L) \/
     (1 <= n <= length bs /\ L < length (join_go out bs L) /\
      length (out ++ sep_all (firstn (n - 1) bs)) <= L)).
Proof.
  revert out. induction bs as [|b bs IH]; intros out Hne Hle.
  - exists 0. simpl. rewrite app_nil_r. split; [reflexivity|]. left. split; [reflexivity|exact Hle].
  - destruct out as [|o os]; [contradiction|].
    change (join_go (o :: os) (b :: bs) L) with
      (if Nat.ltb L (length (o :: os) + length (blank_line ++ b))
       then (o :: os) ++ blank_line ++ b
       else join_go ((o :: os) ++ blank_line ++ b) bs L).
    destruct (Nat.ltb_spec L (length (o :: os) + length (blank_line ++ b))).
    + exists 1. unfold sep_all. cbn [firstn flat_map]. rewrite app_nil_r.
      split; [reflexivity|]. right. rewrite length_app. split; [simpl; lia|].
      split; [lia|]. simpl. rewrite app_nil_r. exact Hle.
    + destruct (IH ((o :: os) ++ blank_line ++ b)) as (n & H1 & H2).
      * destruct os; discriminate.
      * rewrite length_app. lia.
      * exists (S n). cbn [firstn]. rewrite sep_all_cons. split; [exact H1|].
        destruct H2 as [[-> H2]|(Hn & H2 & H3)]; [left; split; [reflexivity|exact H2]|].
        right. split; [simpl; lia|]. split; [exact H2|].
        replace (S n - 1) with (S (n - 1)) by lia. cbn [firstn].
        rewrite sep_all_cons. exact H3.
Qed.

(** [join_blocks] on non-empty blocks returns the first [n] blocks joined
    by blank lines: either all of them, with a result of at most
    [limit_hint] characters, or, when adding block [n] went over
    [limit_hint], a result longer than [limit_hint] whose first [n - 1]
    blocks still fitted. *)
Theorem join_blocks_prefix (blocks : list rchars) (limit_hint : nat) :
  Forall (fun b => b <> []) blocks ->
  exists n, join_blocks blocks limit_hint = join_all (firstn n blocks) /\
    ((n = length blocks /\ length (join_blocks blocks limit_hint) <= limit_hint) \/
     (1 <= n <= length blocks /\ limit_hint < length (join_blocks blocks limit_hint) /\
      length (join_all (firstn (n - 1) blocks)) <= limit_hint)).
Proof.
  intros Hne. unfold join_blocks. destruct blocks as [|b bs].
  - exists 0. simpl. split; [reflexivity|]. left. split; [reflexivity|lia].
  - inversion Hne as [|? ? Hb Hbs]; subst. simpl.
    destruct (Nat.ltb_spec limit_hint (length b)).
    + exists 1. simpl. split; [reflexivity|]. right.
      split; [lia|]. split; [exact H|lia].
    + destruct (join_go_nonempty b bs limit_hint Hb H) as (n & H1 & H2).
      exists (S n). simpl firstn. rewrite join_all_cons. split; [exact H1|].
      destruct H2 as [[-> H2]|(Hn & H2 & H3)]; [left; split; [reflexivity|exact H2]|].
      right. split; [lia|]. split; [exact H2|].
      destruct n as [|n]; [lia|]. replace (S n - 0) with (S n) by lia. simpl firstn.
      rewrite join_all_cons. replace n with (S n - 1) by lia. exact H3.
Qed.

Lemma join_blocks_prefix_witness :
  Forall (fun b => b <> []) [[65%N; 65%N]; [66%N]; [67%N; 67%N; 67%N]] /\
  exists n, join_blocks [[65%N; 65%N]; [66%N]; [67%N; 67%N; 67%N]] 5 =
            join_all (firstn n [[65%N; 65%N]; [66%N]; [67%N; 67%N; 67%N]]) /\
    ((n = 3 /\ length (join_blocks [[65%N; 65%N]; [66%N]; [67%N; 67%N; 67%N]] 5) <= 5) \/
     (1 <= n <= 3 /\ 5 < length (join_blocks [[65%N; 65%N]; [66%N]; [67%N; 67%N; 67%N]] 5) /\
      length (join_all (firstn (n - 1) [[65%N; 65%N]; [66%N]; [67%N; 67%N; 67%N]])) <= 5)).
Proof.
  assert (H : Forall (fun b : rchars => b <> []) [[65%N; 65%N]; [66%N]; [67%N; 67%N; 67%N]])
    by (repeat constructor; discriminate).
  split; [exact H|]. exact (join_blocks_prefix _ 5 H).
Defined.

Lemma split_fold_full {A} (max : nat) (s : list A) out cur :
  1 <= max -> Forall (fun c => length c = max) out -> length cur <= max ->
  Forall (fun c => length c = max) (fst (fold_left (split_step max) s (out, cur))) /\
  length (snd (fold_left (split_step max) s (out, cur))) <= max /\
  (s <> [] -> snd (fold_left (split_step max) s (out, cur)) <> []).
Proof.
  intros Hmax. revert out cur. induction s as [|x s IH]; intros out cur Hout Hcur.
  - simpl. split; [exact Hout|]. split; [exact Hcur|]. intros H; contradiction.
  - simpl. unfold split_step at 2. destruct (Nat.leb_spec max (length cur)).
    + destruct (IH (out ++ [cur]) ([] ++ [x])) as (H1 & H2 & H3).
      * apply Forall_app. split; [exact Hout|]. constructor; [lia|constructor].
      * simpl. lia.
      * split; [exact H1|]. split; [exact H2|]. intros _.
        destruct s; [simpl; discriminate|]. apply H3. discriminate.
    + destruct (IH out (cur ++ [x])) as (H1 & H2 & H3).
      * exact Hout.
      * rewrite length_app. simpl. lia.
      * split; [exact H1|]. split; [exact H2|]. intros _.
        destruct s; [simpl; destruct cur; discriminate|]. apply H3. discriminate.
Qed.

(** When [s] is longer than [max >= 1], [split_by_chars s max] is a list
    of chunks that all have exactly [max] characters, except the last,
    which has between 1 and [max]. *)
Theorem split_by_chars_full_chunks {A : Type} (s : list A) (max : nat) :
  1 <= max -> max < length s ->
  exists full last, split_by_chars s max = full ++ [last] /\
    Forall (fun c => length c = max) full /\ 1 <= length last <= max.
Proof.
  intros Hmax Hlt. unfold split_by_chars.
  destruct (Nat.leb_spec (length s) max); [lia|].
  destruct (split_fold_full max s [] [] Hmax (List.Forall_nil _) (Nat.le_0_l _))
    as (H1 & H2 & H3).
  destruct (fold_left (split_step max) s ([], [])) as [out cur]. simpl in *.
  assert (Hc : cur <> []) by (apply H3; destruct s; simpl in *; [lia|discriminate]).
  destruct cur as [|c cur]; [contradiction|].
  exists out, (c :: cur). split; [reflexivity|]. split; [exact H1|]. simpl in *. lia.
Qed.

Lemma split_by_chars_full_chunks_witness :
  1 <= 2 /\ 2 < length [1; 2; 3; 4; 5] /\
  exists full last, split_by_chars [1; 2; 3; 4; 5] 2 = full ++ [last] /\
    Forall (fun c => length c = 2) full /\ 1 <= length last <= 2.
Proof.
  assert (H1 : 1 <= 2) by lia. assert (H2 : 2 < length [1; 2; 3; 4; 5]) by (simpl; lia).
  split; [exact H1|]. split; [exact H2|]. exact (split_by_chars_full_chunks _ 2 H1 H2).
Defined.

End TextExtra.

Module FlowExtra.
Import Storage StorageFacts Tmdb Tg TgText TgFlows.

Lemma parse_digits_app s t acc :
  parse_digits (String.append s t) acc =
  match parse_digits s acc with Some a => parse_digits t a | None => None end.
Proof.
  revert acc. induction s as [|c s IH]; intros acc; [reflexivity|].
  simpl. destruct (digit_value c); [apply IH|reflexivity].
Qed.

Lemma digit_cases (d : N) : (d < 10)%N ->
  d = 0%N \/ d = 1%N \/ d = 2%N \/ d = 3%N \/ d = 4%N \/ d = 5%N \/ d = 6%N \/
  d = 7%N \/ d = 8%N \/ d = 9%N.
Proof. intros H. lia. Qed.

Lemma digit_value_char (d : N) : (d < 10)%N -> digit_value (digit_char d) = Some d.
Proof.
  intros H. apply digit_cases in H.
  repeat destruct H as [->|H]; [..|subst]; reflexivity.
Qed.

Lemma fmt_digits_parse fuel n :
  1 <= fuel -> (n < 10 ^ N.of_nat fuel)%N -> parse_digits (fmt_digits fuel n) 0 = Some n.
Proof.
  revert n. induction fuel as [|f IH]; intros n Hf Hn; [lia|].
  simpl fmt_digits. destruct (N.ltb_spec n 10).
  - simpl. rewrite digit_value_char by exact H. reflexivity.
  - rewrite parse_digits_app.
    assert (Hf1 : 1 <= f).
    { destruct f; [|lia]. simpl in Hn. lia. }
    rewrite Nat2N.inj_succ, N.pow_succ_r' in Hn.
    rewrite IH by (try exact Hf1; apply N.Div0.div_lt_upper_bound; lia).
    simpl. rewrite digit_value_char by (apply N.mod_lt; lia).
    f_equal. pose proof (N.div_mod n 10 ltac:(lia)). lia.
Qed.

Lemma fmt_digits_head fuel n :
  1 <= fuel -> exists d rest, (d < 10)%N /\ fmt_digits fuel n = String (digit_char d) rest.
Proof.
  revert n. induction fuel as [|f IH]; intros n Hf; [lia|].
  simpl. destruct (N.ltb_spec n 10).
  - exists n, EmptyString. split; [exact H|reflexivity].
  - destruct f as [|f'].
    + exists (n mod 10)%N, EmptyString. split; [apply N.mod_lt; lia|reflexivity].
    + destruct (IH (n / 10)%N ltac:(lia)) as (d & rest & Hd & He).
      exists d, (String.append rest (String (digit_char (n mod 10)) EmptyString)).
      split; [exact Hd|]. rewrite He. reflexivity.
Qed.

Lemma digit_char_not_plus (d : N) (rest : string) : (d < 10)%N ->
  match digit_char d with "+"%char => rest | _ => String (digit_char d) rest end =
  String (digit_char d) rest.
Proof.
  intros H. apply digit_cases in H.
  repeat destruct H as [->|H]; [..|subst]; reflexivity.
Qed.

Lemma fmt_u64_roundtrip (n : N) : (n < 2 ^ 64)%N -> parse_u64 (fmt_u64 n) = Some n.
Proof.
  intros Hn.
  assert (Hp : parse_digits (fmt_u64 n) 0 = Some n).
  { apply fmt_digits_parse; [lia|]. eapply N.lt_le_trans; [exact Hn|]. vm_compute. discriminate. }
  destruct (fmt_digits_head 20 n ltac:(lia)) as (d & rest & Hd & He).
  unfold fmt_u64 in *. rewrite He in *.
  assert (Hlt : (n <? 2 ^ 64)%N = true) by (apply N.ltb_lt; exact Hn).
  unfold parse_u64. rewrite (digit_char_not_plus d rest Hd), Hp, Hlt. reflexivity.
Qed.

(** [format!("{}", id)] read back by [id_str.parse::<u64>()]: for every
    [u64] the decimal text parses to the same number. *)
Theorem fmt_u64_parse_u64 (n : N) : (n < 2 ^ 64)%N -> parse_u64 (fmt_u64 n) = Some n.
Proof. exact (fmt_u64_roundtrip n). Qed.

Lemma fmt_u64_parse_u64_witness :
  (1234 < 2 ^ 64)%N /\ parse_u64 (fmt_u64 1234) = Some 1234%N.
Proof.
  assert (H : (1234 < 2 ^ 64)%N) by (vm_compute; reflexivity).
  split; [exact H|]. exact (fmt_u64_parse_u64 1234 H).
Defined.


Lemma callback_add details image_ok (id : N) chat w :
  (id < 2 ^ 64)%N ->
  on_callback details image_ok (Some (String.append "add:" (fmt_u64 id))) (Some chat) w =
  on_add chat id w.
Proof.
  intros Hid. unfold on_callback. cbn [default].
  change (splitn2_colon (String.append "add:" (fmt_u64 id))) with ("add"%string, fmt_u64 id).
  cbv iota beta. rewrite (fmt_u64_roundtrip id Hid). reflexivity.
Qed.

Lemma callback_del details image_ok (id : N) chat w :
  (id < 2 ^ 64)%N ->
  on_callback details image_ok (Some (String.append "del:" (fmt_u64 id))) (Some chat) w =
  on_del chat id w.
Proof.
  intros Hid. unfold on_callback. cbn [default].
  change (splitn2_colon (String.append "del:" (fmt_u64 id))) with ("del"%string, fmt_u64 id).
  cbv iota beta. rewrite (fmt_u64_roundtrip id Hid). reflexivity.
Qed.

Lemma callback_show details image_ok (id : N) chat w :
  (id < 2 ^ 64)%N ->
  on_callback details image_ok (Some (String.append "show:" (fmt_u64 id))) (Some chat) w =
  on_show details image_ok id w.
Proof.
  intros Hid. unfold on_callback. cbn [default].
  change (splitn2_colon (String.append "show:" (fmt_u64 id))) with ("show"%string, fmt_u64 id).
  cbv iota beta. rewrite (fmt_u64_roundtrip id Hid). reflexivity.
Qed.

Definition add_button (m : Movie) : Button :=
  mkButton (String.append "➕ " (one_line_title m)) (String.append "add:" (fmt_u64 (m_id m))).

Lemma keyboard_add_results_eq rs :
  keyboard_add_results rs = map (fun m => [add_button m]) rs.
Proof.
  unfold keyboard_add_results.
  assert (H : forall rows, fold_left (fun '(rows, row) m =>
      (rows ++ [row ++ [add_button m]], [])) rs (rows, []) =
      (rows ++ map (fun m => [add_button m]) rs, [])).
  { induction rs as [|m rs IH]; intros rows; simpl.
    - rewrite app_nil_r. reflexivity.
    - rewrite IH, <- app_assoc. reflexivity. }
  unfold add_button in H. rewrite H. reflexivity.
Qed.

(** Every row of the list keyboard belongs to one entry of the list, in
    order, and holds two buttons: pressing the first runs the ["show"]
    branch of [on_callback] for that entry's id, pressing the second the
    ["del"] branch, in the chat the keyboard was sent to. *)
Theorem list_keyboard_buttons details image_ok (l : list StoredMovie) (chat : Z) (w : World) :
  Forall (fun m => (id m < 2 ^ 64)%N) l ->
  Forall2 (fun row m => exists sh dl, row = [sh; dl] /\
      on_callback details image_ok (Some (callback_data sh)) (Some chat) w =
        on_show details image_ok (id m) w /\
      on_callback details image_ok (Some (callback_data dl)) (Some chat) w =
        on_del chat (id m) w)
    (keyboard_list_two_columns_stored l) l.
Proof.
  intros H. induction H as [|m l Hm Hl IH]; [constructor|].
  constructor; [|exact IH].
  eexists _, _. split; [reflexivity|]. cbn [callback_data].
  split; [apply callback_show|apply callback_del]; exact Hm.
Qed.

Definition one_film : StoredMovie := mkStoredMovie 7 "Film" "Film" None None.

Lemma list_keyboard_buttons_witness :
  Forall (fun m => (id m < 2 ^ 64)%N) [one_film] /\
  Forall2 (fun row m => exists sh dl, row = [sh; dl] /\
      on_callback (fun _ => Ok None) (fun _ => false) (Some (callback_data sh)) (Some 1%Z)
        (mkWorld fresh empty) = on_show (fun _ => Ok None) (fun _ => false) (id m) (mkWorld fresh empty) /\
      on_callback (fun _ => Ok None) (fun _ => false) (Some (callback_data dl)) (Some 1%Z)
        (mkWorld fresh empty) = on_del 1%Z (id m) (mkWorld fresh empty))
    (keyboard_list_two_columns_stored [one_film]) [one_film].
Proof.
  assert (H : Forall (fun m => (id m < 2 ^ 64)%N) [one_film])
    by (repeat constructor; vm_compute; reflexivity).
  split; [exact H|]. exact (list_keyboard_buttons _ _ _ 1%Z _ H).
Defined.

(** A search whose trimmed query is not empty and which returns results
    answers with those results and one ["add"] button per result; the
    shortlist store is untouched, and pressing a result's button in that
    chat runs the ["add"] branch of [on_callback] for its id, which finds
    in the cached search a result with that id. *)
Theorem search_then_add_button search details image_ok (q : rchars) (chat : Z) (w : World)
  (rs : list Movie) :
  trim q <> [] -> search (trim q) = Ok rs -> rs <> [] ->
  Forall (fun m => (m_id m < 2 ^ 64)%N) rs ->
  let '(w', outs) := on_search_text search (Some q) chat w in
  outs = [SearchFound rs (keyboard_add_results rs)] /\ store w' = store w /\
  Forall2 (fun row m => exists b, row = [b] /\
      on_callback details image_ok (Some (callback_data b)) (Some chat) w' = on_add chat (m_id m) w' /\
      exists m', find_in_last_search w' chat (m_id m) = Some m' /\ m_id m' = m_id m /\ In m' rs)
    (keyboard_add_results rs) rs.
Proof.
  intros Hq Hs Hne Hids. unfold on_search_text.
  destruct (trim q) as [|c cs] eqn:Et; [contradiction|]. rewrite Hs.
  destruct rs as [|r rs']; [contradiction|].
  split; [reflexivity|]. split; [reflexivity|].
  rewrite keyboard_add_results_eq.
  assert (Hfind : forall m, In m (r :: rs') -> exists m',
    find_in_last_search (mkWorld (store w) (<[chat:=r :: rs']> (last_search w))) chat (m_id m) = Some m' /\
    m_id m' = m_id m /\ In m' (r :: rs')).
  { intros m Hm. unfold find_in_last_search. cbn [last_search]. rewrite lookup_insert_eq.
    destruct (List.find (fun x => N.eqb (m_id x) (m_id m)) (r :: rs')) as [m'|] eqn:Ef.
    - apply find_some in Ef as [Hin Heq]. apply N.eqb_eq in Heq. eauto.
    - pose proof (find_none _ _ Ef m Hm) as H. simpl in H. rewrite N.eqb_refl in H. discriminate. }
  assert (Hgen : forall sub, Forall (fun m => (m_id m < 2 ^ 64)%N) sub ->
    (forall m, In m sub -> In m (r :: rs')) ->
    Forall2 (fun row m => exists b, row = [b] /\
      on_callback details image_ok (Some (callback_data b)) (Some chat)
        (mkWorld (store w) (<[chat:=r :: rs']> (last_search w))) =
        on_add chat (m_id m) (mkWorld (store w) (<[chat:=r :: rs']> (last_search w))) /\
      exists m', find_in_last_search (mkWorld (store w) (<[chat:=r :: rs']> (last_search w)))
                   chat (m_id m) = Some m' /\ m_id m' = m_id m /\ In m' (r :: rs'))
      (map (fun m => [add_button m]) sub) sub).
  { induction sub as [|m sub IH]; intros Hi Hin; [constructor|].
    inversion Hi as [|? ? Hm Hsub]; subst. constructor.
    - exists (add_button m). split; [reflexivity|]. split.
      + apply callback_add. exact Hm.
      + apply Hfind, Hin. left. reflexivity.
    - apply IH; [exact Hsub|]. intros x Hx. apply Hin. right. exact Hx. }
  apply Hgen; [exact Hids|]. auto.
Qed.

Definition found_film : Movie := mkMovie 5 "Film" "Film" None None "".
Definition search_one (_ : rchars) : Result (list Movie) TmdbErr := Ok [found_film].
Definition details_none (_ : N) : Result (option Movie) TmdbErr := Ok None.
Definition image_none (_ : string) : bool := false.
Definition world0 : World := mkWorld fresh ∅.

Lemma search_then_add_button_witness :
  trim [65%N] <> [] /\ search_one (trim [65%N]) = Ok [found_film] /\ [found_film] <> [] /\
  Forall (fun m => (m_id m < 2 ^ 64)%N) [found_film] /\
  let '(w', outs) := on_search_text search_one (Some [65%N]) 1%Z world0 in
  outs = [SearchFound [found_film] (keyboard_add_results [found_film])] /\ store w' = store world0 /\
  Forall2 (fun row m => exists b, row = [b] /\
      on_callback details_none image_none (Some (callback_data b)) (Some 1%Z) w' = on_add 1%Z (m_id m) w' /\
      exists m', find_in_last_search w' 1%Z (m_id m) = Some m' /\ m_id m' = m_id m /\ In m' [found_film])
    (keyboard_add_results [found_film]) [found_film].
Proof.
  assert (H1 : trim [65%N] <> []) by (vm_compute; discriminate).
  assert (H2 : search_one (trim [65%N]) = Ok [found_film]) by reflexivity.
  assert (H3 : [found_film] <> []) by discriminate.
  assert (H4 : Forall (fun m => (m_id m < 2 ^ 64)%N) [found_film])
    by (repeat constructor; vm_compute; reflexivity).
  split; [exact H1|]. split; [exact H2|]. split; [exact H3|]. split; [exact H4|].
  exact (search_then_add_button search_one details_none image_none [65%N] 1%Z world0
           [found_film] H1 H2 H3 H4).
Defined.

(** [on_search_text] never touches the shortlist store, and it changes the
    cached last search of no other chat; the cache of its own chat changes
    only when the trimmed query is not empty and the search returned
    results, and then it holds exactly those results. *)
Theorem on_search_text_frame search (text : option rchars) (chat : Z) (w : World) :
  let w' := fst (on_search_text search text chat w) in
  store w' = store w /\
  (forall c, c <> chat -> last_search w' !! c = last_search w !! c) /\
  (last_search w' !! chat = last_search w !! chat \/
   exists q rs, text = Some q /\ trim q <> [] /\ search (trim q) = Ok rs /\ rs <> [] /\
     last_search w' !! chat = Some rs).
Proof.
  cbv zeta. unfold on_search_text.
  destruct text as [q|]; [|cbn [fst]; auto].
  destruct (trim q) as [|c cs] eqn:Et; [cbn [fst]; auto|].
  destruct (search (c :: cs)) as [[|r rs]|e] eqn:Es; cbn [fst]; auto.
  cbn [store last_search]. split; [reflexivity|]. split.
  - intros c' Hne. apply lookup_insert_ne. congruence.
  - right. exists q, (r :: rs). rewrite Et. split; [reflexivity|]. split; [discriminate|].
    split; [exact Es|]. split; [discriminate|]. apply lookup_insert_eq.
Qed.

Lemma on_search_text_frame_witness :
  let w' := fst (on_search_text search_one (Some [65%N]) 1%Z world0) in
  store w' = store world0 /\
  (2%Z <> 1%Z -> last_search w' !! 2%Z = last_search world0 !! 2%Z).
Proof.
  pose proof (on_search_text_frame search_one (Some [65%N]) 1%Z world0) as H.
  cbv zeta in *. destruct H as (H1 & H2 & _). split; [exact H1|]. exact (H2 2%Z).
Defined.

(** [/reset] empties the chat's shortlist and forgets its last search, so
    no ["add"] button of that search resolves any more; other chats keep
    their shortlist and their last search; the store is flushed once. *)
Theorem on_reset_clears (chat c : Z) (w : World) (i : N) :
  let '(w', msg) := on_reset chat w in
  msg = "Список очищен."%string /\ fst (get chat (store w')) = [] /\
  find_in_last_search w' chat i = None /\
  (c <> chat -> fst (get c (store w')) = fst (get c (store w)) /\
                find_in_last_search w' c i = find_in_last_search w c i) /\
  flushed (store w') = flushed (store w) ++ [inner (store w')].
Proof.
  unfold on_reset. destruct (remove_chat chat (store w)) as [u st] eqn:E.
  assert (Hc : chats (inner st) = delete chat (chats (inner (store w)))).
  { change st with (snd (u, st)). rewrite <- E. apply remove_chat_chats. }
  assert (Hf : flushed st = flushed (store w) ++ [inner st]).
  { change st with (snd (u, st)). rewrite <- E. reflexivity. }
  cbn [store last_search]. rewrite !get_eq, Hc.
  split; [reflexivity|]. split; [rewrite lookup_delete_eq; reflexivity|].
  split; [unfold find_in_last_search; cbn [last_search]; rewrite lookup_delete_eq; reflexivity|].
  split; [|exact Hf].
  intros Hne. rewrite lookup_delete_ne by congruence. split; [reflexivity|].
  unfold find_in_last_search. cbn [last_search]. rewrite lookup_delete_ne by congruence.
  reflexivity.
Qed.

Lemma on_reset_clears_witness :
  2%Z <> 1%Z /\
  find_in_last_search (fst (on_reset 1%Z world0)) 2%Z 5 = find_in_last_search world0 2%Z 5.
Proof.
  split; [lia|].
  pose proof (on_reset_clears 1%Z 2%Z world0 5) as H.
  destruct (on_reset 1%Z world0) as [w' msg] eqn:E.
  destruct H as (_ & _ & _ & H & _). exact (proj2 (H ltac:(lia))).
Defined.

(** Pressing the delete button of an entry shown in the chat's list view
    removes that entry: the answer is ["Удалено"] and the list view shows
    the old list without the entries of that id, which is what the store
    now holds; the cached search is untouched. *)
Theorem del_button_removes details image_ok (chat : Z) (w : World) (m : StoredMovie) :
  In m (fst (get chat (store w))) -> (id m < 2 ^ 64)%N ->
  let l := fst (get chat (store w)) in
  let '(w', outs) := on_callback details image_ok
                        (Some (String.append "del:" (fmt_u64 (id m)))) (Some chat) w in
  outs = [AnswerCb "Удалено"; send_list_view (retain_not (id m) l)] /\
  fst (get chat (store w')) = retain_not (id m) l /\ last_search w' = last_search w.
Proof.
  intros Hin Hid l. rewrite callback_del by exact Hid. unfold on_del.
  rewrite StoreExtra.delete_movie_eq. unfold l in *. rewrite get_eq in *.
  destruct (chats (inner (store w)) !! chat) as [l0|] eqn:Ec; [|contradiction].
  cbn [default from_option Datatypes.id] in *.
  assert (Hx : existsb (fun x => N.eqb (id x) (id m)) l0 = true).
  { apply existsb_exists. exists m. split; [exact Hin|apply N.eqb_refl]. }
  rewrite Hx. cbn [last_search store]. rewrite get_eq. cbn [inner chats].
  rewrite lookup_insert_eq. cbn [default from_option Datatypes.id].
  split; [reflexivity|]. split; reflexivity.
Qed.

Definition world_one : World := mkWorld (snd (put 1%Z [one_film] fresh)) ∅.

Lemma del_button_removes_witness :
  In one_film (fst (get 1%Z (store world_one))) /\ (id one_film < 2 ^ 64)%N /\
  fst (get 1%Z (store (fst (on_callback details_none image_none
     (Some (String.append "del:" (fmt_u64 (id one_film)))) (Some 1%Z) world_one)))) =
  retain_not (id one_film) (fst (get 1%Z (store world_one))).
Proof.
  assert (H1 : In one_film (fst (get 1%Z (store world_one)))) by (left; reflexivity).
  assert (H2 : (id one_film < 2 ^ 64)%N) by (vm_compute; reflexivity).
  split; [exact H1|]. split; [exact H2|].
  pose proof (del_button_removes details_none image_none 1%Z world_one one_film H1 H2) as H.
  cbv zeta in H.
  destruct (on_callback details_none image_none (Some (String.append "del:" (fmt_u64 (id one_film))))
              (Some 1%Z) world_one) as [w' outs].
  exact (proj1 (proj2 H)).
Defined.

Lemma album_go_length image_ok caption i ms :
  length (album_go image_ok caption i ms) <= length ms.
Proof.
  revert i. induction ms as [|m ms IH]; intros i; simpl; [lia|].
  destruct (poster_path m); [|specialize (IH (S i)); lia].
  destruct (image_ok _); simpl; specialize (IH (S i)); lia.
Qed.

Lemma album_go_later image_ok caption i ms :
  1 <= i -> Forall (fun p => photo_caption p = None) (album_go image_ok caption i ms).
Proof.
  revert i. induction ms as [|m ms IH]; intros i Hi; simpl; [constructor|].
  destruct (poster_path m); [|apply IH; lia].
  destruct (image_ok _); [|apply IH; lia].
  destruct (Nat.eqb_spec i 0); [lia|]. constructor; [reflexivity|apply IH; lia].
Qed.

(** The album of [send_album_from_stored] has at most 10 photos, one per
    movie whose poster was fetched; only its first photo can carry the
    caption, and only when it is the first movie's poster: then the
    caption is the given one clipped to 1024 characters. *)
Theorem album_captions image_ok (movies : list StoredMovie) (caption : option rchars) :
  let album := send_album_from_stored image_ok movies caption in
  length album <= 10 /\ length album <= length movies /\
  Forall (fun p => photo_caption p = None) (tl album) /\
  (forall p, hd_error album = Some p -> photo_caption p <> None ->
     exists m ms pth, movies = m :: ms /\ poster_path m = Some pth /\
       photo_url p = String.append "https://image.tmdb.org/t/p/w500" pth /\
       image_ok (photo_url p) = true /\
       exists c, caption = Some c /\ photo_caption p = Some (clip c 1024)).
Proof.
  cbv zeta. unfold send_album_from_stored.
  pose proof (album_go_length image_ok caption 0 (firstn 10 movies)) as Hl.
  rewrite length_firstn in Hl. split; [lia|]. split; [lia|].
  destruct movies as [|m ms]; [split; [constructor|intros p Hp; discriminate]|].
  cbn [firstn album_go].
  destruct (poster_path m) as [pth|] eqn:Ep.
  - destruct (image_ok (String.append "https://image.tmdb.org/t/p/w500" pth)) eqn:Ei.
    + cbn [Nat.eqb tl hd_error]. split; [apply album_go_later; lia|].
      intros p Hp Hc. inversion Hp; subst. cbn [photo_caption photo_url] in *.
      exists m, ms, pth. split; [reflexivity|]. split; [exact Ep|]. split; [reflexivity|].
      split; [exact Ei|]. destruct caption as [c|]; [|contradiction].
      exists c. split; reflexivity.
    + pose proof (album_go_later image_ok caption 1 (firstn 9 ms) ltac:(lia)) as Hf.
      clear Hl. destruct (album_go image_ok caption 1 (firstn 9 ms)) as [|a rest];
        [split; [constructor|discriminate]|].
      inversion Hf as [|? ? Ha Hrest]; subst. split; [exact Hrest|].
      intros p Hp Hc. inversion Hp; subst. contradiction.
  - pose proof (album_go_later image_ok caption 1 (firstn 9 ms) ltac:(lia)) as Hf.
    clear Hl. destruct (album_go image_ok caption 1 (firstn 9 ms)) as [|a rest];
      [split; [constructor|discriminate]|].
    inversion Hf as [|? ? Ha Hrest]; subst. split; [exact Hrest|].
    intros p Hp Hc. inversion Hp; subst. contradiction.
Qed.

Definition poster_a : StoredMovie := mkStoredMovie 1 "A" "A" (Some "/a.jpg") None.
Definition photo_a : AlbumPhoto :=
  mkAlbumPhoto (String.append "https://image.tmdb.org/t/p/w500" "/a.jpg") (Some (clip [65%N] 1024)).

Lemma album_captions_witness :
  hd_error (send_album_from_stored (fun _ => true) [poster_a] (Some [65%N])) = Some photo_a /\
  photo_caption photo_a <> None /\
  exists m ms pth, [poster_a] = m :: ms /\ poster_path m = Some pth /\
    photo_url photo_a = String.append "https://image.tmdb.org/t/p/w500" pth /\
    (fun _ => true) (photo_url photo_a) = true /\
    exists c, Some [65%N] = Some c /\ photo_caption photo_a = Some (clip c 1024).
Proof.
  assert (H1 : hd_error (send_album_from_stored (fun _ => true) [poster_a] (Some [65%N])) = Some photo_a)
    by reflexivity.
  assert (H2 : photo_caption photo_a <> None) by discriminate.
  split; [exact H1|]. split; [exact H2|].
  exact (proj2 (proj2 (proj2 (album_captions (fun _ => true) [poster_a] (Some [65%N])))) photo_a H1 H2).
Defined.

End FlowExtra.
